(** * Rate limiting of hierarchical commands (src/index.ts)

    A shallow embedding of the plugin's admission logic: the rule table
    built from the configuration, the usage-record store, the per-level
    check [checkRateLimit] and the hook run before a command executes.

    Conventions of the embedding.
    - JavaScript numbers are taken at integers: timestamps are the
      millisecond counts of [Date.now()], thresholds are whole numbers.
      The one non-integer the code can produce on its own, [NaN] (from
      arithmetic on an absent field), is kept as a value of [number].
      The code computes in IEEE doubles, which are exact on integers up
      to [maxSafeInteger] and round beyond it and on fractions: the
      statements that depend on an exact sum say so in a hypothesis, and
      [cooldownExpiresAtDouble] gives the sum of the cooldown expiry in
      the code's own doubles.
    - [Map<string, V>] is a [gmap string V]; the keys are the very strings
      the template literals build.
    - The record fetched from the map is the stored object itself, so an
      assignment to one of its fields is visible in the map before any
      [commandRecords.set]; a fresh [{}] is not in the map until it is set.
    - [session.resolve(v)] of a computed value is application of a
      function of the session.
    - The clock is an input: [now] stands for the reading of [Date.now()],
      and [nextMidnight now] for [new Date()] moved by
      [setHours(24, 0, 0, 0)], both readings of one call taken at the same
      instant.  The host's time zone fixes [nextMidnight]; it is a
      parameter of the development. *)

From Stdlib Require Import PrimFloat.
From Stdlib Require FloatOps SpecFloat.
From stdpp Require Import gmap strings list fin_maps pretty.
From Stdlib Require Import ZArith Lia Ascii.

Open Scope Z_scope.

(** ** Data model *)

(** type Scope = 'platform' | 'channel' | 'user' *)
Inductive Scope : Type :=
  | ScopePlatform
  | ScopeChannel
  | ScopeUser.

(** type Action = 'block' | 'limit' | 'ignore' *)
Inductive Action : Type :=
  | Block
  | Limit
  | Ignore.

(** A JavaScript number as far as this code can produce one. *)
Inductive number : Type :=
  | Num (z : Z)
  | NaN.

(** interface UsageRecord: every field is optional. *)
Record UsageRecord : Type := mkUsageRecord {
  cooldownExpiresAt : option Z;
  dailyUsesLeft : option number;
  dailyResetAt : option Z
}.

(** The object literal [{}]. *)
Definition emptyRecord : UsageRecord :=
  {| cooldownExpiresAt := None; dailyUsesLeft := None; dailyResetAt := None |}.

Inductive RuleType : Type :=
  | RuleUser
  | RuleChannel.

Inductive RuleAction : Type :=
  | RuleBlock
  | RuleIgnore.

(** interface CommandFilterRule *)
Record CommandFilterRule : Type := mkRule {
  rule_type : RuleType;
  rule_content : string;
  rule_action : RuleAction
}.

(** interface Config; an absent [commandRules] is the empty list and an
    absent [sendHint] is [false]. *)
Record Config : Type := mkConfig {
  sendHint : bool;
  commandRules : list CommandFilterRule
}.

(** The fields of the host's session that the code reads.  Any of them may
    be missing ([undefined]). *)
Record Session : Type := mkSession {
  userId : option string;
  channelId : option string;
  platform : option string
}.

(** Computed<T>, resolved by [session.resolve]. *)
Definition Computed (T : Type) : Type := Session -> T.

Definition resolve {T : Type} (session : Session) (v : Computed T) : T := v session.

(** The three entries this plugin adds to Command.Config. *)
Record CommandConfig : Type := mkCommandConfig {
  maxDayUsage : Computed Z;
  minInterval : Computed Z;
  scope : Computed Scope
}.

(** A command node with its [parent] reference; the root has none. *)
#[local] Unset Elimination Schemes.
Inductive Command : Type :=
  | mkCommand (name : string) (config : CommandConfig) (parent : option Command).
#[local] Set Elimination Schemes.

Definition cmd_name (cmd : Command) : string :=
  match cmd with mkCommand n _ _ => n end.

Definition cmd_config (cmd : Command) : CommandConfig :=
  match cmd with mkCommand _ c _ => c end.

Definition cmd_parent (cmd : Command) : option Command :=
  match cmd with mkCommand _ _ p => p end.

(** ** Strings the code builds *)

(** How a template literal renders a scope, a rule type, a rule action. *)
Definition scopeText (s : Scope) : string :=
  match s with
  | ScopePlatform => "platform"
  | ScopeChannel => "channel"
  | ScopeUser => "user"
  end.

Definition ruleTypeText (t : RuleType) : string :=
  match t with
  | RuleUser => "user"
  | RuleChannel => "channel"
  end.

Definition actionOf (a : RuleAction) : Action :=
  match a with
  | RuleBlock => Block
  | RuleIgnore => Ignore
  end.

(** A template literal renders a missing identifier as the text
    [undefined]. *)
Definition idText (id : option string) : string :=
  match id with
  | Some s => s
  | None => "undefined"
  end.

(** cmd.name.replace(/\./g, ':') *)
Fixpoint replaceDots (s : string) : string :=
  match s with
  | EmptyString => EmptyString
  | String c rest =>
      String (if Ascii.eqb c "."%char then ":"%char else c) (replaceDots rest)
  end.

(** Math.ceil(d / 1000) on an integer [d]. *)
Definition ceilSeconds (d : Z) : Z := - ((- d) / 1000).

Definition cooldownMessage (remaining : Z) : string :=
  "操作过于频繁，请 " +:+ pretty remaining +:+ " 秒后重试".

Definition quotaMessage : string := "使用已达上限，请明日再试".

(** ** Truthiness *)

Definition truthyNum (o : option Z) : bool :=
  match o with
  | Some v => negb (v =? 0)
  | None => false
  end.

Definition truthyStr (o : option string) : bool :=
  match o with
  | Some EmptyString => false
  | Some _ => true
  | None => false
  end.

(** [o > now] for an optional timestamp: a comparison with [undefined] is
    false. *)
Definition laterThan (o : option Z) (now : Z) : bool :=
  match o with
  | Some v => now <? v
  | None => false
  end.

(** [now > o] for an optional timestamp. *)
Definition earlierThan (o : option Z) (now : Z) : bool :=
  match o with
  | Some v => v <? now
  | None => false
  end.

(** [u <= 0]: false on [undefined] and on [NaN]. *)
Definition usesLeftLe0 (u : option number) : bool :=
  match u with
  | Some (Num z) => z <=? 0
  | _ => false
  end.

(** [u--]: the stored value afterwards. *)
Definition decrement (u : option number) : option number :=
  match u with
  | Some (Num z) => Some (Num (z - 1))
  | _ => Some NaN
  end.

(** ** The code's own numbers *)

(** Number.MAX_SAFE_INTEGER, 2^53 - 1: up to it sums and products of
    integers are exact in doubles. *)
Definition maxSafeInteger : Z := 9007199254740991.



(** ** The rule table *)

Definition ruleKey (t : RuleType) (content : string) : string :=
  ruleTypeText t +:+ ":" +:+ content.

(** for (const rule of config.commandRules ?? []) rules.set(..., rule.action) *)
Definition rules (config : Config) : gmap string Action :=
  fold_left
    (fun (m : gmap string Action) (rule : CommandFilterRule) =>
       <[ruleKey (rule_type rule) (rule_content rule) := actionOf (rule_action rule)]> m)
    (commandRules config) ∅.

(** rules.get(`user:${session.userId}`)
      ?? rules.get(`channel:${session.channelId}`) ?? 'limit' *)
Definition getEffectiveAction (config : Config) (session : Session) : Action :=
  match rules config !! ("user:" +:+ idText (userId session)) with
  | Some a => a
  | None =>
      match rules config !! ("channel:" +:+ idText (channelId session)) with
      | Some a => a
      | None => Limit
      end
  end.

(** ** The usage-record store *)

Definition getRecordKey (session : Session) (sc : Scope) : option string :=
  match sc with
  | ScopeUser => userId session
  | ScopeChannel => channelId session
  | ScopePlatform => platform session
  end.

Definition recordIdOf (sc : Scope) (key commandName : string) : string :=
  scopeText sc +:+ ":" +:+ key +:+ ":" +:+ commandName.

(** The state of the map after fields of the fetched record were assigned
    but before any [set]: visible only if the record was the stored
    object. *)
Definition assigned (stored : option UsageRecord) (recordId : string)
    (record : UsageRecord) (commandRecords : gmap string UsageRecord)
    : gmap string UsageRecord :=
  match stored with
  | Some _ => <[recordId := record]> commandRecords
  | None => commandRecords
  end.

Section RateLimit.

(** The local midnight that follows a given instant. *)
Variable nextMidnight : Z -> Z.

(** The quota block: reset of the window when it is missing or over. *)
Definition resetWindow (record : UsageRecord) (maxDayUsage now : Z) : UsageRecord :=
  if negb (truthyNum (dailyResetAt record)) || earlierThan (dailyResetAt record) now
  then {| cooldownExpiresAt := cooldownExpiresAt record;
          dailyUsesLeft := Some (Num maxDayUsage);
          dailyResetAt := Some (nextMidnight now) |}
  else record.

(** The update block of an admitted call. *)
Definition commit (record : UsageRecord) (minInterval maxDayUsage now : Z) : UsageRecord :=
  let record1 :=
    if 0 <? minInterval
    then {| cooldownExpiresAt := Some (now + minInterval * 1000);
            dailyUsesLeft := dailyUsesLeft record;
            dailyResetAt := dailyResetAt record |}
    else record in
  if 0 <? maxDayUsage
  then {| cooldownExpiresAt := cooldownExpiresAt record1;
          dailyUsesLeft := decrement (dailyUsesLeft record1);
          dailyResetAt := dailyResetAt record1 |}
  else record1.

(** checkRateLimit: the hint when the call is limited, [None] otherwise,
    and the store afterwards. *)
Definition checkRateLimit (commandRecords : gmap string UsageRecord)
    (session : Session) (commandName : string) (sc : Scope)
    (minInterval maxDayUsage : Z) (now : Z)
    : option string * gmap string UsageRecord :=
  let key := getRecordKey session sc in
  if negb (truthyStr key) then (None, commandRecords)
  else
    let recordId := recordIdOf sc (idText key) commandName in
    let stored := commandRecords !! recordId in
    let record := default emptyRecord stored in
    if (0 <? minInterval) && truthyNum (cooldownExpiresAt record)
       && laterThan (cooldownExpiresAt record) now
    then
      let remaining := ceilSeconds (default 0 (cooldownExpiresAt record) - now) in
      (Some (cooldownMessage remaining), commandRecords)
    else
      let record1 :=
        if 0 <? maxDayUsage then resetWindow record maxDayUsage now else record in
      if (0 <? maxDayUsage) && usesLeftLe0 (dailyUsesLeft record1)
      then (Some quotaMessage, assigned stored recordId record1 commandRecords)
      else
        (None, <[recordId := commit record1 minInterval maxDayUsage now]> commandRecords).

(** The loop over the command and its parents, from one level on.  The
    loop is synchronous: the levels of one invocation read the clock at
    the same instant [now]. *)
Fixpoint walk (config : Config) (session : Session) (now : Z) (cmd : Command)
    (commandRecords : gmap string UsageRecord)
    : option string * gmap string UsageRecord :=
  match cmd with
  | mkCommand name cfg parent =>
      let next (st : gmap string UsageRecord) :=
        match parent with
        | Some p => walk config session now p st
        | None => (None, st)
        end in
      let minI := resolve session (minInterval cfg) in
      let maxD := resolve session (maxDayUsage cfg) in
      if (minI =? 0) && (maxD =? 0) then next commandRecords
      else
        let sc := resolve session (scope cfg) in
        let '(result, st) :=
          checkRateLimit commandRecords session (replaceDots name) sc minI maxD now in
        if truthyStr result
        then (Some (if sendHint config then idText result else ""), st)
        else next st
  end.

(** The callback of ctx.before('command/execute', ...): [None] lets the
    command run, [Some ""] cancels it silently, [Some hint] cancels it
    with a message. *)
Definition beforeCommandExecute (config : Config) (session : Session) (now : Z)
    (command : Command) (commandRecords : gmap string UsageRecord)
    : option string * gmap string UsageRecord :=
  match getEffectiveAction config session with
  | Ignore => (None, commandRecords)
  | Block => (Some "", commandRecords)
  | Limit => walk config session now command commandRecords
  end.

End RateLimit.

(** A time zone to compute with: UTC days. *)
Definition utcMidnight (t : Z) : Z := (t / 86400000 + 1) * 86400000.

(** ** Drivers and reference definitions used by the statements *)

(** A run of calls of one command by one session under fixed thresholds,
    one call per clock reading; the results in order and the final store. *)
Fixpoint callsAt (nextMidnight : Z -> Z) (commandRecords : gmap string UsageRecord)
    (session : Session) (commandName : string) (sc : Scope)
    (minInterval maxDayUsage : Z) (times : list Z)
    : list (option string) * gmap string UsageRecord :=
  match times with
  | [] => ([], commandRecords)
  | now :: later =>
      let '(result, st) :=
        checkRateLimit nextMidnight commandRecords session commandName sc
          minInterval maxDayUsage now in
      let '(results, st') :=
        callsAt nextMidnight st session commandName sc minInterval maxDayUsage later in
      (result :: results, st')
  end.

(** The stored record of a key, [{}] when there is none. *)
Definition recordAt (commandRecords : gmap string UsageRecord) (recordId : string)
    : UsageRecord :=
  default emptyRecord (commandRecords !! recordId).

(** The record identifier [checkRateLimit] builds for a session that has
    the key of the scope. *)
Definition recordIdFor (session : Session) (sc : Scope) (commandName : string) : string :=
  recordIdOf sc (idText (getRecordKey session sc)) commandName.

(** The list gives an identity the action [a]: some entry of that type and
    identifier carries it, and every entry of that type and identifier
    agrees. *)
Definition entryFor (t : RuleType) (id : string) (entries : list CommandFilterRule)
    (a : RuleAction) : Prop :=
  (exists r, r ∈ entries /\ rule_type r = t /\ rule_content r = id /\ rule_action r = a) /\
  (forall r, r ∈ entries -> rule_type r = t -> rule_content r = id -> rule_action r = a).

(** The list has no entry for an identity. *)
Definition noEntryFor (t : RuleType) (id : string) (entries : list CommandFilterRule)
    : Prop :=
  forall r, r ∈ entries -> ~ (rule_type r = t /\ rule_content r = id).

(** A level carries an active limit when the loop does not skip it. *)
Definition activeLimit (session : Session) (cfg : CommandConfig) : bool :=
  negb ((resolve session (minInterval cfg) =? 0) && (resolve session (maxDayUsage cfg) =? 0)).

(** The nearest command with an active limit, starting from the invoked
    one. *)
Fixpoint nearestActive (session : Session) (cmd : Command) : option Command :=
  match cmd with
  | mkCommand name cfg parent =>
      if activeLimit session cfg then Some cmd
      else match parent with
           | Some p => nearestActive session p
           | None => None
           end
  end.

(** The record identifier a level uses for a session that has the key. *)
Definition levelRecordId (session : Session) (cmd : Command) : string :=
  let sc := resolve session (scope (cmd_config cmd)) in
  recordIdOf sc (idText (getRecordKey session sc)) (replaceDots (cmd_name cmd)).

(** The check of one level alone, with the hook's treatment of its
    result. *)
Definition evaluateLevel (nextMidnight : Z -> Z) (config : Config) (session : Session)
    (now : Z) (cmd : Command) (commandRecords : gmap string UsageRecord)
    : option string * gmap string UsageRecord :=
  let cfg := cmd_config cmd in
  let '(result, st) :=
    checkRateLimit nextMidnight commandRecords session (replaceDots (cmd_name cmd))
      (resolve session (scope cfg)) (resolve session (minInterval cfg))
      (resolve session (maxDayUsage cfg)) now in
  (if truthyStr result then Some (if sendHint config then idText result else "") else None,
   st).

(** An entry is for an identity when type and identifier are equal. *)
Definition ruleMatches (t : RuleType) (id : string) (r : CommandFilterRule) : bool :=
  match t, rule_type r with
  | RuleUser, RuleUser | RuleChannel, RuleChannel => String.eqb (rule_content r) id
  | _, _ => false
  end.

(** The action of the last entry of the list for an identity. *)
Fixpoint lastEntry (t : RuleType) (id : string) (entries : list CommandFilterRule)
    : option Action :=
  match entries with
  | [] => None
  | r :: rest =>
      match lastEntry t id rest with
      | Some a => Some a
      | None => if ruleMatches t id r then Some (actionOf (rule_action r)) else None
      end
  end.

(** Stores reached from the empty one by hook invocations, whatever the
    configuration, session, clock reading and command of each. *)
Inductive Reachable (nextMidnight : Z -> Z) : gmap string UsageRecord -> Prop :=
  | Reachable_init : Reachable nextMidnight ∅
  | Reachable_invoke config session now command st :
      Reachable nextMidnight st ->
      Reachable nextMidnight
        (snd (beforeCommandExecute nextMidnight config session now command st)).

(** What the stored quota fields look like on every reachable store. *)
Definition quotaWellFormed (r : UsageRecord) : Prop :=
  match dailyUsesLeft r with
  | None => dailyResetAt r = None
  | Some (Num n) => 0 <= n
  | Some NaN => False
  end.

(** The rest of the loop after one level: on to the parent, or out of the
    loop at the root. *)
Definition walkParent (nextMidnight : Z -> Z) (config : Config) (session : Session)
    (now : Z) (parent : option Command) (commandRecords : gmap string UsageRecord)
    : option string * gmap string UsageRecord :=
  match parent with
  | Some p => walk nextMidnight config session now p commandRecords
  | None => (None, commandRecords)
  end.

(** The loop, started at [cmd] on store [st], comes to a level whose check
    denies with hint [h], leaving store [st']: levels without an active
    limit are passed over, levels that admit are passed through. *)
Inductive DenyingStep (nextMidnight : Z -> Z) (session : Session) (now : Z)
    : Command -> gmap string UsageRecord -> string -> gmap string UsageRecord -> Prop :=
  | Deny_here name cfg parent st h st' :
      activeLimit session cfg = true ->
      checkRateLimit nextMidnight st session (replaceDots name)
        (resolve session (scope cfg)) (resolve session (minInterval cfg))
        (resolve session (maxDayUsage cfg)) now = (Some h, st') ->
      DenyingStep nextMidnight session now (mkCommand name cfg parent) st h st'
  | Deny_above_inactive name cfg p st h st' :
      activeLimit session cfg = false ->
      DenyingStep nextMidnight session now p st h st' ->
      DenyingStep nextMidnight session now (mkCommand name cfg (Some p)) st h st'
  | Deny_above_admitted name cfg p st st1 h st' :
      activeLimit session cfg = true ->
      checkRateLimit nextMidnight st session (replaceDots name)
        (resolve session (scope cfg)) (resolve session (minInterval cfg))
        (resolve session (maxDayUsage cfg)) now = (None, st1) ->
      DenyingStep nextMidnight session now p st1 h st' ->
      DenyingStep nextMidnight session now (mkCommand name cfg (Some p)) st h st'.

Definition storeWellFormed (commandRecords : gmap string UsageRecord) : Prop :=
  forall k r, commandRecords !! k = Some r -> quotaWellFormed r.

(** Whether a string holds a character. *)
Fixpoint hasChar (c : ascii) (s : string) : bool :=
  match s with
  | EmptyString => false
  | String a rest => Ascii.eqb a c || hasChar c rest
  end.

(** The levels the loop can visit: the command, then its ancestors up to
    the root. *)
Fixpoint chain (cmd : Command) : list Command :=
  match cmd with
  | mkCommand _ _ parent =>
      cmd :: match parent with
             | Some p => chain p
             | None => []
             end
  end.

(** What one call of [checkRateLimit] makes of the record of its
    identifier: the result, and the record written back when there is
    one. *)
Definition levelOutcome (nextMidnight : Z -> Z) (session : Session) (sc : Scope)
    (record : UsageRecord) (minInterval maxDayUsage now : Z)
    : option string * option UsageRecord :=
  if negb (truthyStr (getRecordKey session sc)) then (None, None)
  else if (0 <? minInterval) && truthyNum (cooldownExpiresAt record)
          && laterThan (cooldownExpiresAt record) now
  then (Some (cooldownMessage (ceilSeconds (default 0 (cooldownExpiresAt record) - now))),
        None)
  else
    let record1 :=
      if 0 <? maxDayUsage then resetWindow nextMidnight record maxDayUsage now
      else record in
    if (0 <? maxDayUsage) && usesLeftLe0 (dailyUsesLeft record1)
    then (Some quotaMessage, None)
    else (None, Some (commit record1 minInterval maxDayUsage now)).

(** [commandRecords.set] when there is a record to write. *)
Definition writeBack (recordId : string) (record : option UsageRecord)
    (commandRecords : gmap string UsageRecord) : gmap string UsageRecord :=
  match record with
  | Some r => <[recordId := r]> commandRecords
  | None => commandRecords
  end.

(** Every record of the store has both quota fields or neither. *)
Definition quotaFieldsTogether (commandRecords : gmap string UsageRecord) : Prop :=
  forall k r,
    commandRecords !! k = Some r ->
    (dailyResetAt r = None <-> dailyUsesLeft r = None).

(** The values the schema gives the three entries of a command that
    configures none: scope [channel], both thresholds 0. *)
Definition defaultCommandConfig : CommandConfig :=
  {| maxDayUsage := fun _ => 0; minInterval := fun _ => 0; scope := fun _ => ScopeChannel |}.


(** ** Example data *)

Definition sessionU1 : Session :=
  {| userId := Some "U1"; channelId := Some "C1"; platform := Some "P" |}.

(** A private session: no channel. *)
Definition sessionPrivate : Session :=
  {| userId := Some "U1"; channelId := None; platform := Some "P" |}.

Definition staticLimit (sc : Scope) (minI maxD : Z) : CommandConfig :=
  {| maxDayUsage := fun _ => maxD; minInterval := fun _ => minI; scope := fun _ => sc |}.

Definition cmdA : Command := mkCommand "a" (staticLimit ScopeUser 0 1) None.

Definition cmdAB : Command := mkCommand "a.b" (staticLimit ScopeUser 0 5) (Some cmdA).

Definition cmdChannelOnly : Command :=
  mkCommand "c.d" (staticLimit ScopeChannel 60 3) (Some cmdA).

(** A store with one exhausted daily quota: the record of command [a] for
    user U1 as an admitted call at time 5 leaves it under UTC days. *)
Definition storeAUsed : gmap string UsageRecord :=
  {[ "user:U1:a" :=
       {| cooldownExpiresAt := None;
          dailyUsesLeft := Some (Num 0);
          dailyResetAt := Some 86400000 |} ]}.

(** A session that carries no user identifier. *)
Definition sessionNoUser : Session :=
  {| userId := None; channelId := Some "C1"; platform := Some "P" |}.

(** A rule list with a user entry whose identifier is the text
    [undefined], and an exemption of channel C1. *)
Definition undefinedRules : Config :=
  {| sendHint := false;
     commandRules :=
       [ mkRule RuleUser "undefined" RuleBlock;
         mkRule RuleChannel "C1" RuleIgnore ] |}.

Definition noRules : Config := {| sendHint := true; commandRules := [] |}.

Definition someRules (hint : bool) : Config :=
  {| sendHint := hint;
     commandRules :=
       [ mkRule RuleChannel "C1" RuleBlock;
         mkRule RuleUser "U1" RuleIgnore;
         mkRule RuleUser "U2" RuleBlock ] |}.

Definition sessionU2 : Session :=
  {| userId := Some "U2"; channelId := Some "C9"; platform := Some "P" |}.

(** * Properties *)

(** ** Arithmetic and strings *)

Ltac zbool :=
  repeat match goal with
  | H : (_ <? _) = true |- _ => apply Z.ltb_lt in H
  | H : (_ <? _) = false |- _ => apply Z.ltb_ge in H
  | H : (_ <=? _) = true |- _ => apply Z.leb_le in H
  | H : (_ <=? _) = false |- _ => apply Z.leb_gt in H
  | H : (_ =? _) = true |- _ => apply Z.eqb_eq in H
  | H : (_ =? _) = false |- _ => apply Z.eqb_neq in H
  end.

Lemma ceilSeconds_bounds (d : Z) :
  d <= 1000 * ceilSeconds d < d + 1000.
Proof.
  unfold ceilSeconds.
  pose proof (Z.div_mod (- d) 1000 ltac:(lia)) as Hdm.
  pose proof (Z.mod_pos_bound (- d) 1000 ltac:(lia)) as Hb.
  lia.
Qed.

Lemma ceilSeconds_pos (d : Z) : 0 < d -> 1 <= ceilSeconds d.
Proof. intros Hd. pose proof (ceilSeconds_bounds d). lia. Qed.

Lemma cooldownMessage_truthy (r : Z) : truthyStr (Some (cooldownMessage r)) = true.
Proof. reflexivity. Qed.

Lemma quotaMessage_truthy : truthyStr (Some quotaMessage) = true.
Proof. reflexivity. Qed.

Lemma cooldown_not_quota (r : Z) : cooldownMessage r <> quotaMessage.
Proof. unfold cooldownMessage, quotaMessage. simpl. discriminate. Qed.

Lemma ruleKey_inj (t t' : RuleType) (c c' : string) :
  ruleKey t c = ruleKey t' c' -> t = t' /\ c = c'.
Proof.
  unfold ruleKey. destruct t, t'; simpl; intros H; try discriminate.
  - injection H as H. done.
  - injection H as H. done.
Qed.

(** ** One call of [checkRateLimit] *)

Section CheckRateLimit.

Variable nextMidnight : Z -> Z.

Abbreviation check := (checkRateLimit nextMidnight).

(** Without a key the call does nothing. *)
Lemma check_no_key st s name sc minI maxD now :
  truthyStr (getRecordKey s sc) = false ->
  check st s name sc minI maxD now = (None, st).
Proof. intros Hk. unfold checkRateLimit. rewrite Hk. reflexivity. Qed.

(** A reset leaves a positive count, so the quota check that follows a
    reset passes. *)
Lemma resetWindow_cases record maxD now :
  0 < maxD ->
  (resetWindow nextMidnight record maxD now = record) \/
  (dailyUsesLeft (resetWindow nextMidnight record maxD now) = Some (Num maxD)).
Proof.
  intros _. unfold resetWindow.
  destruct (negb _ || _); [right | left]; reflexivity.
Qed.

(** The three possible results. *)
Lemma check_result st s name sc minI maxD now :
  fst (check st s name sc minI maxD now) = None \/
  (0 < maxD /\ fst (check st s name sc minI maxD now) = Some quotaMessage) \/
  (0 < minI /\ exists r, 1 <= r /\
      fst (check st s name sc minI maxD now) = Some (cooldownMessage r)).
Proof.
  unfold checkRateLimit.
  destruct (negb (truthyStr (getRecordKey s sc))); [by left |].
  cbv zeta.
  set (rec0 := default emptyRecord _).
  destruct (0 <? minI) eqn:Hmin; simpl.
  - destruct (truthyNum (cooldownExpiresAt rec0)) eqn:Ht; simpl.
    + destruct (laterThan (cooldownExpiresAt rec0) now) eqn:Hl; simpl.
      * right; right. zbool. split; [done |].
        eexists; split; [| reflexivity].
        destruct (cooldownExpiresAt rec0) as [v |]; [| discriminate].
        simpl in *. zbool. apply ceilSeconds_pos. lia.
      * destruct (0 <? maxD) eqn:Hmax; simpl; [| by left].
        destruct (usesLeftLe0 _); [right; left; zbool; done | by left].
    + destruct (0 <? maxD) eqn:Hmax; simpl; [| by left].
      destruct (usesLeftLe0 _); [right; left; zbool; done | by left].
  - destruct (0 <? maxD) eqn:Hmax; simpl; [| by left].
    destruct (usesLeftLe0 _); [right; left; zbool; done | by left].
Qed.

(** A denied call leaves the store as it was. *)
Lemma check_deny_store st s name sc minI maxD now h :
  fst (check st s name sc minI maxD now) = Some h ->
  snd (check st s name sc minI maxD now) = st.
Proof.
  unfold checkRateLimit.
  destruct (negb (truthyStr (getRecordKey s sc))); [done |].
  cbv zeta.
  set (rid := recordIdOf _ _ _).
  destruct (_ && _ && _); [done |].
  destruct (0 <? maxD) eqn:Hmax; simpl; [| done].
  destruct (usesLeftLe0 _) eqn:Hle; simpl; [| done].
  intros _. zbool.
  destruct (resetWindow_cases (default emptyRecord (st !! rid)) maxD now Hmax)
    as [Hsame | Hreset].
  - rewrite Hsame. unfold assigned.
    destruct (st !! rid) as [r |] eqn:Hlk; [| done].
    simpl. by apply insert_id.
  - rewrite Hreset in Hle. simpl in Hle. zbool. lia.
Qed.

(** A result is truthy exactly when it is a denial. *)
Lemma check_truthy st s name sc minI maxD now :
  truthyStr (fst (check st s name sc minI maxD now)) =
  bool_decide (fst (check st s name sc minI maxD now) <> None).
Proof.
  destruct (check_result st s name sc minI maxD now)
    as [-> | [[_ ->] | [_ [r [_ ->]]]]]; reflexivity.
Qed.

(** No cooldown denial under a threshold that is not positive. *)
Lemma check_no_cooldown st s name sc minI maxD now r :
  minI <= 0 ->
  fst (check st s name sc minI maxD now) <> Some (cooldownMessage r).
Proof.
  intros Hle.
  destruct (check_result st s name sc minI maxD now)
    as [-> | [[_ ->] | [Hpos _]]]; [done | | lia].
  intros H. apply (cooldown_not_quota r). congruence.
Qed.

(** No quota denial under a threshold that is not positive. *)
Lemma check_no_quota st s name sc minI maxD now :
  maxD <= 0 ->
  fst (check st s name sc minI maxD now) <> Some quotaMessage.
Proof.
  intros Hle.
  destruct (check_result st s name sc minI maxD now)
    as [-> | [[Hpos _] | [_ [r [_ ->]]]]]; [done | lia |].
  intros H. apply (cooldown_not_quota r). congruence.
Qed.

(** With both thresholds not positive the call is admitted. *)
Lemma check_disabled st s name sc minI maxD now :
  minI <= 0 -> maxD <= 0 ->
  fst (check st s name sc minI maxD now) = None.
Proof.
  intros H1 H2.
  destruct (check_result st s name sc minI maxD now)
    as [-> | [[Hpos _] | [Hpos _]]]; [done | lia | lia].
Qed.

End CheckRateLimit.

(** ** The loop over the command chain *)

(** Induction along the [parent] references. *)
Lemma Command_chain_ind (P : Command -> Prop)
    (Hroot : forall name cfg, P (mkCommand name cfg None))
    (Hchild : forall name cfg p, P p -> P (mkCommand name cfg (Some p)))
    (cmd : Command) : P cmd.
Proof.
  revert cmd. fix IH 1. intros [name cfg [p |]].
  - apply Hchild, IH.
  - apply Hroot.
Qed.

Section Walk.

Variable nextMidnight : Z -> Z.

Abbreviation check := (checkRateLimit nextMidnight).

(** One turn of the loop. *)
Lemma walk_eq config s now name cfg parent st :
  walk nextMidnight config s now (mkCommand name cfg parent) st =
  if activeLimit s cfg then
    let r := check st s (replaceDots name) (resolve s (scope cfg))
               (resolve s (minInterval cfg)) (resolve s (maxDayUsage cfg)) now in
    if truthyStr (fst r)
    then (Some (if sendHint config then idText (fst r) else ""), snd r)
    else walkParent nextMidnight config s now parent (snd r)
  else walkParent nextMidnight config s now parent st.
Proof.
  unfold activeLimit. simpl.
  destruct (_ && _); simpl; [reflexivity |].
  destruct (checkRateLimit _ _ _ _ _ _ _ _) as [r st1]. simpl.
  destruct (truthyStr r); reflexivity.
Qed.

(** A level without an active limit is passed over. *)
Lemma walk_inactive config s now name cfg parent st :
  activeLimit s cfg = false ->
  walk nextMidnight config s now (mkCommand name cfg parent) st =
  walkParent nextMidnight config s now parent st.
Proof. intros H. rewrite walk_eq, H. reflexivity. Qed.

(** A level whose check denies ends the loop, the store untouched. *)
Lemma walk_denied config s now name cfg parent st h :
  activeLimit s cfg = true ->
  fst (check st s (replaceDots name) (resolve s (scope cfg))
         (resolve s (minInterval cfg)) (resolve s (maxDayUsage cfg)) now) = Some h ->
  walk nextMidnight config s now (mkCommand name cfg parent) st =
  (Some (if sendHint config then h else ""), st).
Proof.
  intros Ha Hr. rewrite walk_eq, Ha. cbv zeta.
  rewrite check_truthy, (check_deny_store _ _ _ _ _ _ _ _ _ Hr), Hr.
  reflexivity.
Qed.

(** A level whose check admits hands the loop on to the parent. *)
Lemma walk_admitted config s now name cfg parent st :
  activeLimit s cfg = true ->
  fst (check st s (replaceDots name) (resolve s (scope cfg))
         (resolve s (minInterval cfg)) (resolve s (maxDayUsage cfg)) now) = None ->
  walk nextMidnight config s now (mkCommand name cfg parent) st =
  walkParent nextMidnight config s now parent
    (snd (check st s (replaceDots name) (resolve s (scope cfg))
            (resolve s (minInterval cfg)) (resolve s (maxDayUsage cfg)) now)).
Proof.
  intros Ha Hr. rewrite walk_eq, Ha. cbv zeta. rewrite Hr. reflexivity.
Qed.

(** The loop returns the hint of the denying step, or the empty string
    when hints are off. *)
Lemma walk_denying_step config s now cmd st h st' :
  DenyingStep nextMidnight s now cmd st h st' ->
  walk nextMidnight config s now cmd st =
  (Some (if sendHint config then h else ""), st').
Proof.
  induction 1 as [name cfg parent st h st' Ha Hc
                 | name cfg p st h st' Ha _ IH
                 | name cfg p st st1 h st' Ha Hc _ IH].
  - rewrite (walk_denied config s now name cfg parent st h Ha); [| by rewrite Hc].
    f_equal. symmetry.
    rewrite <- (check_deny_store nextMidnight st s (replaceDots name)
                  (resolve s (scope cfg)) (resolve s (minInterval cfg))
                  (resolve s (maxDayUsage cfg)) now h); by rewrite Hc.
  - rewrite walk_inactive by done. exact IH.
  - rewrite walk_admitted by (by rewrite ?Hc). rewrite Hc. exact IH.
Qed.

(** Conversely, whatever the loop returns other than [undefined] is the
    hint of a denying step, or the empty string in its place. *)
Lemma walk_some_denying_step config s now cmd :
  forall st x st',
    walk nextMidnight config s now cmd st = (Some x, st') ->
    exists h, DenyingStep nextMidnight s now cmd st h st' /\
              x = if sendHint config then h else "".
Proof.
  induction cmd as [name cfg | name cfg p IH] using Command_chain_ind;
    intros st x st'; rewrite walk_eq; cbv zeta;
    destruct (activeLimit s cfg) eqn:Ha.
  - rewrite check_truthy.
    destruct (check st s (replaceDots name) _ _ _ now) as [[h |] st1] eqn:Hc;
      simpl; [| discriminate].
    intros [= <- <-]. exists h. split; [| reflexivity].
    by apply Deny_here.
  - discriminate.
  - rewrite check_truthy.
    destruct (check st s (replaceDots name) _ _ _ now) as [[h |] st1] eqn:Hc; simpl.
    + intros [= <- <-]. exists h. split; [| reflexivity].
      by apply Deny_here.
    + intros Hp. destruct (IH _ _ _ Hp) as [h [Hd ->]].
      exists h. split; [| reflexivity].
      by apply (Deny_above_admitted _ _ _ name cfg p st st1).
  - simpl. intros Hp. destruct (IH _ _ _ Hp) as [h [Hd ->]].
    exists h. split; [| reflexivity].
    by apply Deny_above_inactive.
Qed.

(** Up to the nearest level with an active limit the loop does nothing. *)
Lemma walk_nearestActive config s now cmd st :
  walk nextMidnight config s now cmd st =
  match nearestActive s cmd with
  | Some lvl => walk nextMidnight config s now lvl st
  | None => (None, st)
  end.
Proof.
  induction cmd as [name cfg | name cfg p IH] using Command_chain_ind; simpl nearestActive.
  - destruct (activeLimit s cfg) eqn:Ha; [reflexivity |].
    by rewrite walk_inactive.
  - destruct (activeLimit s cfg) eqn:Ha; [reflexivity |].
    rewrite walk_inactive by done. exact IH.
Qed.

End Walk.

(** ** Thresholds that disable a dimension *)

(** Claim C4.  A level whose resolved [minInterval] is 0 never produces a
    cooldown denial and a level whose resolved [maxDayUsage] is 0 never
    produces a quota denial, on any store and hence after any sequence of
    calls, one call or a run of them; a level where both are 0 is passed
    over by the loop.  Zero disables the dimension, it does not allow zero
    calls. *)
Theorem disabled_by_zero (nextMidnight : Z -> Z) (st : gmap string UsageRecord)
    (s : Session) (name : string) (sc : Scope) :
  (forall maxD now r,
      fst (checkRateLimit nextMidnight st s name sc 0 maxD now)
      <> Some (cooldownMessage r)) /\
  (forall minI now,
      fst (checkRateLimit nextMidnight st s name sc minI 0 now) <> Some quotaMessage) /\
  (forall maxD times,
      Forall (fun result => forall r, result <> Some (cooldownMessage r))
        (fst (callsAt nextMidnight st s name sc 0 maxD times))) /\
  (forall minI times,
      Forall (fun result => result <> Some quotaMessage)
        (fst (callsAt nextMidnight st s name sc minI 0 times))) /\
  (forall config now cfg parent,
      resolve s (minInterval cfg) = 0 -> resolve s (maxDayUsage cfg) = 0 ->
      walk nextMidnight config s now (mkCommand name cfg parent) st =
      walkParent nextMidnight config s now parent st).
Proof.
  repeat split.
  - intros maxD now r. apply check_no_cooldown. lia.
  - intros minI now. apply check_no_quota. lia.
  - intros maxD times. revert st.
    induction times as [| now later IH]; intros st; simpl; [constructor |].
    pose proof (check_no_cooldown nextMidnight st s name sc 0 maxD now) as Hc.
    destruct (checkRateLimit _ _ _ _ _ _ _ _) as [result st1].
    specialize (IH st1).
    destruct (callsAt _ _ _ _ _ _ _ _) as [results st2]. simpl in *.
    constructor; [| exact IH]. intros r. apply Hc. lia.
  - intros minI times. revert st.
    induction times as [| now later IH]; intros st; simpl; [constructor |].
    pose proof (check_no_quota nextMidnight st s name sc minI 0 now) as Hc.
    destruct (checkRateLimit _ _ _ _ _ _ _ _) as [result st1].
    specialize (IH st1).
    destruct (callsAt _ _ _ _ _ _ _ _) as [results st2]. simpl in *.
    constructor; [| exact IH]. apply Hc. lia.
  - intros config now cfg parent Hmin Hmax. apply walk_inactive.
    unfold activeLimit. rewrite Hmin, Hmax. reflexivity.
Qed.

(** The record of every key reads the same after a call under thresholds
    that are both not positive (a missing record may be stored as [{}]). *)
Lemma check_disabled_frame (nextMidnight : Z -> Z) st s name sc minI maxD now k :
  minI <= 0 -> maxD <= 0 ->
  recordAt (snd (checkRateLimit nextMidnight st s name sc minI maxD now)) k =
  recordAt st k.
Proof.
  intros H1 H2. unfold checkRateLimit, commit.
  destruct (negb (truthyStr (getRecordKey s sc))); [done |].
  cbv zeta.
  destruct (0 <? minI) eqn:Hmin; [zbool; lia |].
  destruct (0 <? maxD) eqn:Hmax; [zbool; lia |].
  simpl. unfold recordAt.
  set (rid := recordIdOf _ _ _).
  destruct (decide (rid = k)) as [<- | Hne].
  - by rewrite lookup_insert_eq.
  - by rewrite lookup_insert_ne.
Qed.

(** Claim C8.  A negative resolved [minInterval] never produces a cooldown
    denial and a negative resolved [maxDayUsage] never produces a quota
    denial; [checkRateLimit] is a total function, so nothing is thrown.
    When neither threshold is positive and one is negative, the level
    admits the call, every stored record reads as before, and the loop
    goes on to the parent: the negative threshold acts as a disabled
    limit. *)
Theorem negative_thresholds_disable (nextMidnight : Z -> Z)
    (st : gmap string UsageRecord) (s : Session) (name : string) (sc : Scope)
    (minI maxD now : Z) :
  minI < 0 \/ maxD < 0 ->
  (minI < 0 ->
     forall r, fst (checkRateLimit nextMidnight st s name sc minI maxD now)
               <> Some (cooldownMessage r)) /\
  (maxD < 0 ->
     fst (checkRateLimit nextMidnight st s name sc minI maxD now) <> Some quotaMessage) /\
  (minI <= 0 -> maxD <= 0 ->
     fst (checkRateLimit nextMidnight st s name sc minI maxD now) = None /\
     (forall k,
        recordAt (snd (checkRateLimit nextMidnight st s name sc minI maxD now)) k
        = recordAt st k) /\
     (forall config cname cfg parent,
        replaceDots cname = name -> resolve s (scope cfg) = sc ->
        resolve s (minInterval cfg) = minI -> resolve s (maxDayUsage cfg) = maxD ->
        walk nextMidnight config s now (mkCommand cname cfg parent) st =
        walkParent nextMidnight config s now parent
          (snd (checkRateLimit nextMidnight st s name sc minI maxD now)))).
Proof.
  intros Hneg. split; [| split].
  - intros Hlt r. apply check_no_cooldown. lia.
  - intros Hlt. apply check_no_quota. lia.
  - intros H1 H2. split; [| split].
    + by apply check_disabled.
    + intros k. by apply check_disabled_frame.
    + intros config cname cfg parent <- <- <- <-.
      apply walk_admitted.
      * unfold activeLimit.
        destruct (resolve s (minInterval cfg) =? 0) eqn:E1;
          destruct (resolve s (maxDayUsage cfg) =? 0) eqn:E2; try reflexivity.
        zbool. lia.
      * by apply check_disabled.
Qed.

(** ** Sessions without the key of the scope *)

(** Claim C9.  When the session lacks the identifier the resolved scope
    selects (or carries an empty one, which [!key] treats alike),
    [checkRateLimit] returns no hint and the store it returns is the store
    it was given; the loop goes on to the parent on that same store. *)
Theorem absent_key_skips_level (nextMidnight : Z -> Z) (st : gmap string UsageRecord)
    (s : Session) (sc : Scope) :
  getRecordKey s sc = None \/ getRecordKey s sc = Some "" ->
  (forall name minI maxD now,
      checkRateLimit nextMidnight st s name sc minI maxD now = (None, st)) /\
  (forall config now name cfg parent,
      resolve s (scope cfg) = sc ->
      walk nextMidnight config s now (mkCommand name cfg parent) st =
      walkParent nextMidnight config s now parent st).
Proof.
  intros Hkey.
  assert (Hcheck : forall name minI maxD now,
             checkRateLimit nextMidnight st s name sc minI maxD now = (None, st)).
  { intros. apply check_no_key. by destruct Hkey as [-> | ->]. }
  split; [exact Hcheck |].
  intros config now name cfg parent Hsc.
  rewrite walk_eq, Hsc. cbv zeta. rewrite Hcheck. simpl.
  by destruct (activeLimit s cfg).
Qed.

(** ** The rule actions in the hook *)

(** Claim C6.  Under the effective action [ignore] the hook lets the
    command run and returns the store it was given: no level of the chain
    is checked and no record is created or changed, whatever limits the
    command and its ancestors carry. *)
Theorem ignore_skips_everything (nextMidnight : Z -> Z) (config : Config)
    (s : Session) (now : Z) (command : Command) (st : gmap string UsageRecord) :
  getEffectiveAction config s = Ignore ->
  beforeCommandExecute nextMidnight config s now command st = (None, st).
Proof. intros H. unfold beforeCommandExecute. by rewrite H. Qed.

(** The effective action reads the rule list only. *)
Lemma getEffectiveAction_sendHint (hint hint' : bool) (entries : list CommandFilterRule)
    (s : Session) :
  getEffectiveAction (mkConfig hint entries) s =
  getEffectiveAction (mkConfig hint' entries) s.
Proof. reflexivity. Qed.

(** Claim C7.  Under the effective action [block] the hook returns the
    empty string whatever [sendHint] is.  Under [limit], when the loop
    comes to a level whose check denies with hint [h], the hook returns
    [h] if [sendHint] is set and the empty string otherwise; and whatever
    the hook returns other than [undefined] comes from such a denying
    step. *)
Theorem hint_policy (nextMidnight : Z -> Z) (hint : bool)
    (entries : list CommandFilterRule) (s : Session) (now : Z) (command : Command)
    (st : gmap string UsageRecord) :
  (getEffectiveAction (mkConfig hint entries) s = Block ->
     beforeCommandExecute nextMidnight (mkConfig hint entries) s now command st
     = (Some "", st)) /\
  (getEffectiveAction (mkConfig hint entries) s = Limit ->
     forall h st',
       DenyingStep nextMidnight s now command st h st' ->
       beforeCommandExecute nextMidnight (mkConfig hint entries) s now command st
       = (Some (if hint then h else ""), st')) /\
  (getEffectiveAction (mkConfig hint entries) s = Limit ->
     forall x st',
       beforeCommandExecute nextMidnight (mkConfig hint entries) s now command st
       = (Some x, st') ->
       exists h, DenyingStep nextMidnight s now command st h st' /\
                 x = if hint then h else "").
Proof.
  split; [| split].
  - intros H. unfold beforeCommandExecute. by rewrite H.
  - intros H h st' Hd. unfold beforeCommandExecute. rewrite H.
    by rewrite (walk_denying_step nextMidnight (mkConfig hint entries) s now
                  command st h st' Hd).
  - intros H x st'. unfold beforeCommandExecute. rewrite H.
    apply (walk_some_denying_step nextMidnight (mkConfig hint entries)).
Qed.

(** ** Where the loop stops *)

Lemma nearestActive_active (s : Session) (cmd : Command) name cfg parent :
  nearestActive s cmd = Some (mkCommand name cfg parent) ->
  activeLimit s cfg = true.
Proof.
  induction cmd as [n c | n c p IH] using Command_chain_ind; simpl.
  - destruct (activeLimit s c) eqn:Ha; [| discriminate].
    intros [= _ <- _]. exact Ha.
  - destruct (activeLimit s c) eqn:Ha; [| exact IH].
    intros [= _ <- _]. exact Ha.
Qed.

(** Claim C1, as the code has it.  For an invocation under the action
    [limit], let the nearest command with an active limit be evaluated.
    If its check denies, the hook returns that denial and the store is the
    one it was given: no ancestor is consulted.  If its check admits, the
    loop goes on from the parent of that level on the updated store, so
    the ancestors with an active limit are evaluated in their turn. *)
Theorem walk_stops_at_first_denial (nextMidnight : Z -> Z) (config : Config)
    (s : Session) (now : Z) (command : Command) (name : string)
    (cfg : CommandConfig) (parent : option Command) (st : gmap string UsageRecord) :
  getEffectiveAction config s = Limit ->
  nearestActive s command = Some (mkCommand name cfg parent) ->
  (forall h,
     fst (checkRateLimit nextMidnight st s (replaceDots name) (resolve s (scope cfg))
            (resolve s (minInterval cfg)) (resolve s (maxDayUsage cfg)) now) = Some h ->
     beforeCommandExecute nextMidnight config s now command st
     = (Some (if sendHint config then h else ""), st)) /\
  (fst (checkRateLimit nextMidnight st s (replaceDots name) (resolve s (scope cfg))
          (resolve s (minInterval cfg)) (resolve s (maxDayUsage cfg)) now) = None ->
     beforeCommandExecute nextMidnight config s now command st
     = walkParent nextMidnight config s now parent
         (snd (checkRateLimit nextMidnight st s (replaceDots name)
                 (resolve s (scope cfg)) (resolve s (minInterval cfg))
                 (resolve s (maxDayUsage cfg)) now))).
Proof.
  intros Hact Hnear.
  pose proof (nearestActive_active s command name cfg parent Hnear) as Ha.
  unfold beforeCommandExecute. rewrite Hact.
  rewrite walk_nearestActive, Hnear.
  split.
  - intros h Hr. by apply walk_denied.
  - intros Hr. by apply walk_admitted.
Qed.

(** The claim as the specification words it fails.  User U1 invokes [a.b]
    (daily quota 5) whose parent [a] has a daily quota of 1, on an empty
    store at time 5.  The invoked command is the nearest level with an
    active limit and it admits the call, yet the hook goes on to [a]: the
    record of [a] is created with its one use spent, and the outcome is
    not that of evaluating [a.b] alone.  A second invocation at time 6 is
    then denied by the quota of [a], while [a.b] alone would admit it. *)
Lemma first_match_stop_counterexample :
  getEffectiveAction noRules sessionU1 = Limit /\
  nearestActive sessionU1 cmdAB = Some cmdAB /\
  activeLimit sessionU1 (cmd_config cmdA) = true /\
  (∅ : gmap string UsageRecord) !! levelRecordId sessionU1 cmdA = None /\
  snd (beforeCommandExecute utcMidnight noRules sessionU1 5 cmdAB ∅)
    !! levelRecordId sessionU1 cmdA
  = Some {| cooldownExpiresAt := None;
            dailyUsesLeft := Some (Num 0);
            dailyResetAt := Some 86400000 |} /\
  beforeCommandExecute utcMidnight noRules sessionU1 5 cmdAB ∅
  <> evaluateLevel utcMidnight noRules sessionU1 5 cmdAB ∅ /\
  fst (evaluateLevel utcMidnight noRules sessionU1 6 cmdAB
         (snd (beforeCommandExecute utcMidnight noRules sessionU1 5 cmdAB ∅)))
  = None /\
  fst (beforeCommandExecute utcMidnight noRules sessionU1 6 cmdAB
         (snd (beforeCommandExecute utcMidnight noRules sessionU1 5 cmdAB ∅)))
  = Some quotaMessage.
Proof.
  repeat split; try (vm_compute; reflexivity).
  intros H.
  apply (f_equal (fun p => snd p !! levelRecordId sessionU1 cmdA)) in H.
  vm_compute in H. discriminate.
Qed.

(** At [a] with its quota spent the hook stops on the denial; at [a.b],
    which admits, it goes on to [a]. *)
Lemma walk_stops_at_first_denial_witness :
  getEffectiveAction noRules sessionU1 = Limit /\
  nearestActive sessionU1 cmdA = Some cmdA /\
  nearestActive sessionU1 cmdAB = Some cmdAB /\
  beforeCommandExecute utcMidnight noRules sessionU1 6 cmdA storeAUsed
  = (Some quotaMessage, storeAUsed) /\
  beforeCommandExecute utcMidnight noRules sessionU1 5 cmdAB ∅
  = walkParent utcMidnight noRules sessionU1 5 (Some cmdA)
      (snd (checkRateLimit utcMidnight ∅ sessionU1 "a:b" ScopeUser 0 5 5)).
Proof.
  split; [reflexivity | split; [reflexivity | split; [reflexivity |]]].
  split.
  - apply (proj1 (walk_stops_at_first_denial utcMidnight noRules sessionU1 6 cmdA
                    "a" (staticLimit ScopeUser 0 1) None storeAUsed
                    eq_refl eq_refl) quotaMessage).
    vm_compute. reflexivity.
  - apply (proj2 (walk_stops_at_first_denial utcMidnight noRules sessionU1 5 cmdAB
                    "a.b" (staticLimit ScopeUser 0 5) (Some cmdA) ∅
                    eq_refl eq_refl)).
    vm_compute. reflexivity.
Defined.

(** ** The rule table *)

Lemma ruleMatches_spec (t : RuleType) (id : string) (r : CommandFilterRule) :
  ruleMatches t id r = true <-> rule_type r = t /\ rule_content r = id.
Proof.
  unfold ruleMatches.
  destruct t, (rule_type r); rewrite ?String.eqb_eq; intuition congruence.
Qed.

Lemma lastEntry_cons (t : RuleType) (id : string) r rest :
  lastEntry t id (r :: rest) =
  match lastEntry t id rest with
  | Some a => Some a
  | None => if ruleMatches t id r then Some (actionOf (rule_action r)) else None
  end.
Proof. reflexivity. Qed.

(** The table holds, under the key of an identity, the action of the last
    entry listed for it. *)
Lemma fold_rules_lookup (t : RuleType) (id : string) (entries : list CommandFilterRule)
    (m : gmap string Action) :
  fold_left
    (fun (m : gmap string Action) (rule : CommandFilterRule) =>
       <[ruleKey (rule_type rule) (rule_content rule) := actionOf (rule_action rule)]> m)
    entries m !! ruleKey t id =
  match lastEntry t id entries with
  | Some a => Some a
  | None => m !! ruleKey t id
  end.
Proof.
  revert m. induction entries as [| r rest IH]; intros m; [reflexivity |].
  cbn [fold_left]. rewrite IH, lastEntry_cons.
  destruct (lastEntry t id rest); [reflexivity |].
  destruct (ruleMatches t id r) eqn:Hm.
  - apply ruleMatches_spec in Hm as [<- <-]. by rewrite lookup_insert_eq.
  - rewrite lookup_insert_ne; [reflexivity |].
    intros Heq. apply ruleKey_inj in Heq as [Ht Hc].
    assert (ruleMatches t id r = true) by (apply ruleMatches_spec; done).
    congruence.
Qed.

Lemma rules_lookup (config : Config) (t : RuleType) (id : string) :
  rules config !! ruleKey t id = lastEntry t id (commandRules config).
Proof.
  unfold rules. rewrite fold_rules_lookup, lookup_empty.
  by destruct (lastEntry _ _ _).
Qed.

Lemma lastEntry_none (t : RuleType) (id : string) (entries : list CommandFilterRule) :
  noEntryFor t id entries -> lastEntry t id entries = None.
Proof.
  unfold noEntryFor. induction entries as [| r rest IH]; intros Hno; [reflexivity |].
  rewrite lastEntry_cons, IH.
  - destruct (ruleMatches t id r) eqn:Hm; [| reflexivity].
    apply ruleMatches_spec in Hm. exfalso. apply (Hno r); [left | done].
  - intros r' Hin. apply Hno. by right.
Qed.

Lemma lastEntry_some (t : RuleType) (id : string) (entries : list CommandFilterRule)
    (a : Action) :
  lastEntry t id entries = Some a ->
  exists r, r ∈ entries /\ rule_type r = t /\ rule_content r = id /\
            actionOf (rule_action r) = a.
Proof.
  induction entries as [| r rest IH]; [discriminate |].
  rewrite lastEntry_cons.
  destruct (lastEntry t id rest) as [b |].
  - intros [= ->]. destruct (IH eq_refl) as [r' [Hin Hr']].
    exists r'. split; [by right | exact Hr'].
  - destruct (ruleMatches t id r) eqn:Hm; [| discriminate].
    intros [= <-]. apply ruleMatches_spec in Hm as [Ht Hc].
    exists r. split; [by left | done].
Qed.

Lemma lastEntry_none_inv (t : RuleType) (id : string) (entries : list CommandFilterRule) :
  lastEntry t id entries = None -> noEntryFor t id entries.
Proof.
  unfold noEntryFor. induction entries as [| r rest IH].
  - intros _ r Hin. by apply not_elem_of_nil in Hin.
  - rewrite lastEntry_cons.
    destruct (lastEntry t id rest) as [b |]; [discriminate |].
    destruct (ruleMatches t id r) eqn:Hm; [discriminate |].
    intros _ r' Hin Hr'. apply elem_of_cons in Hin as [-> | Hin].
    + apply ruleMatches_spec in Hr'. congruence.
    + by apply (IH eq_refl r').
Qed.

Lemma lastEntry_agree (t : RuleType) (id : string) (entries : list CommandFilterRule)
    (a : RuleAction) :
  entryFor t id entries a -> lastEntry t id entries = Some (actionOf a).
Proof.
  intros [[r0 [Hin0 [Ht0 [Hc0 Ha0]]]] Hall].
  destruct (lastEntry t id entries) as [b |] eqn:Hlast.
  - apply lastEntry_some in Hlast as [r [Hin [Ht [Hc <-]]]].
    by rewrite (Hall r Hin Ht Hc).
  - apply lastEntry_none_inv in Hlast. by destruct (Hlast r0 Hin0).
Qed.

(** The effective action, by the entries of the list. *)
Lemma getEffectiveAction_lastEntry (config : Config) (s : Session) :
  getEffectiveAction config s =
  match lastEntry RuleUser (idText (userId s)) (commandRules config) with
  | Some a => a
  | None =>
      match lastEntry RuleChannel (idText (channelId s)) (commandRules config) with
      | Some a => a
      | None => Limit
      end
  end.
Proof.
  unfold getEffectiveAction.
  change ("user:" +:+ idText (userId s)) with (ruleKey RuleUser (idText (userId s))).
  change ("channel:" +:+ idText (channelId s))
    with (ruleKey RuleChannel (idText (channelId s))).
  by rewrite !rules_lookup.
Qed.

(** For a session that carries a user identifier [u] and a channel
    identifier [c]: if the rule list gives (user, u) an action, that
    action is the result, whatever the list holds for the channel and
    wherever the entries stand in the list; otherwise, if it gives
    (channel, c) an action, that one is the result; with no entry for
    either the result is [limit].  In every case the result is read off
    the last user entry for [u], failing that off the last channel entry
    for [c], by equality of type and identifier alone. *)
Theorem rule_precedence (config : Config) (s : Session) (u c : string) :
  userId s = Some u ->
  channelId s = Some c ->
  (forall a,
     entryFor RuleUser u (commandRules config) a ->
     getEffectiveAction config s = actionOf a) /\
  (noEntryFor RuleUser u (commandRules config) ->
   forall a,
     entryFor RuleChannel c (commandRules config) a ->
     getEffectiveAction config s = actionOf a) /\
  (noEntryFor RuleUser u (commandRules config) ->
   noEntryFor RuleChannel c (commandRules config) ->
   getEffectiveAction config s = Limit) /\
  getEffectiveAction config s =
    match lastEntry RuleUser u (commandRules config) with
    | Some a => a
    | None =>
        match lastEntry RuleChannel c (commandRules config) with
        | Some a => a
        | None => Limit
        end
    end.
Proof.
  intros Hu Hc. rewrite getEffectiveAction_lastEntry, Hu, Hc. simpl.
  repeat split.
  - intros a Ha. by rewrite (lastEntry_agree _ _ _ _ Ha).
  - intros Hno a Ha.
    by rewrite (lastEntry_none _ _ _ Hno), (lastEntry_agree _ _ _ _ Ha).
  - intros Hno Hno'.
    by rewrite (lastEntry_none _ _ _ Hno), (lastEntry_none _ _ _ Hno').
Qed.

(** Claim C5, where the code departs from it.  A session without user
    identifier, in channel C1, under a rule list that blocks the user
    whose identifier is the text [undefined] and exempts channel C1: no
    entry of the list has the identifier of the session's user, for the
    session has none, and the channel entry gives C1 the action [ignore];
    yet the lookup key is built as [user:undefined] and the result is
    [block].  [checkRateLimit] guards a missing identifier ([!key]),
    [getEffectiveAction] does not. *)
Theorem getEffectiveAction_missing_userId :
  userId sessionNoUser = None /\
  channelId sessionNoUser = Some "C1" /\
  (forall r, r ∈ commandRules undefinedRules ->
             rule_type r = RuleUser -> Some (rule_content r) <> userId sessionNoUser) /\
  entryFor RuleChannel "C1" (commandRules undefinedRules) RuleIgnore /\
  getEffectiveAction undefinedRules sessionNoUser = Block /\
  truthyStr (getRecordKey sessionNoUser ScopeUser) = false.
Proof.
  split; [reflexivity | split; [reflexivity | split; [| split; [| split]]]].
  - intros r _ _. discriminate.
  - split.
    + exists (mkRule RuleChannel "C1" RuleIgnore). repeat split.
      apply list_elem_of_further, list_elem_of_here.
    + intros r Hin Ht Hc. simpl in Hin.
      repeat (apply elem_of_cons in Hin as [-> | Hin]); try discriminate; try reflexivity.
      by apply not_elem_of_nil in Hin.
  - vm_compute. reflexivity.
  - reflexivity.
Qed.

(** ** The daily quota and the cooldown *)

Section Limits.

Variable nextMidnight : Z -> Z.

(** [checkRateLimit] for a session that has the key, read off the stored
  record: the assignments made before a denial never reach the store. *)
Lemma check_eq st s name sc minI maxD now :
truthyStr (getRecordKey s sc) = true ->
checkRateLimit nextMidnight st s name sc minI maxD now =
let record := recordAt st (recordIdFor s sc name) in
if (0 <? minI) && truthyNum (cooldownExpiresAt record)
   && laterThan (cooldownExpiresAt record) now
then (Some (cooldownMessage (ceilSeconds (default 0 (cooldownExpiresAt record) - now))),
      st)
else
  let record1 :=
    if 0 <? maxD then resetWindow nextMidnight record maxD now else record in
  if (0 <? maxD) && usesLeftLe0 (dailyUsesLeft record1)
  then (Some quotaMessage, st)
  else (None, <[recordIdFor s sc name := commit record1 minI maxD now]> st).
Proof.
intros Hkey.
pose proof (check_deny_store nextMidnight st s name sc minI maxD now quotaMessage)
  as Hdeny.
unfold checkRateLimit in *. rewrite Hkey in *. simpl negb in *. cbv iota zeta in *.
fold (recordIdFor s sc name) in *. fold (recordAt st (recordIdFor s sc name)) in *.
destruct (_ && _ && _); [reflexivity |].
destruct (_ && usesLeftLe0 _); [| reflexivity].
simpl in Hdeny. by rewrite Hdeny.
Qed.



Lemma recordAt_insert (st : gmap string UsageRecord) (k : string) (r : UsageRecord) :
recordAt (<[k := r]> st) k = r.
Proof. unfold recordAt. by rewrite lookup_insert_eq. Qed.


End Limits.


(** The cooldown check on a record with a cooldown. *)
Lemma check_cooldown_active (nextMidnight : Z -> Z) st s name sc N maxD now e :
  truthyStr (getRecordKey s sc) = true ->
  0 < N -> e <> 0 ->
  cooldownExpiresAt (recordAt st (recordIdFor s sc name)) = Some e ->
  (now < e ->
     checkRateLimit nextMidnight st s name sc N maxD now =
     (Some (cooldownMessage (ceilSeconds (e - now))), st)) /\
  (e <= now ->
     forall r, fst (checkRateLimit nextMidnight st s name sc N maxD now)
               <> Some (cooldownMessage r)).
Proof.
  intros Hkey HN He Hcool. rewrite check_eq by done. cbv zeta. rewrite Hcool. simpl.
  assert ((0 <? N) = true) as -> by (apply Z.ltb_lt; lia).
  assert ((e =? 0) = false) as -> by (apply Z.eqb_neq; lia).
  simpl. split.
  - intros Hlt. assert ((now <? e) = true) as -> by (apply Z.ltb_lt; lia). reflexivity.
  - intros Hge r. assert ((now <? e) = false) as -> by (apply Z.ltb_ge; lia).
    destruct (_ && usesLeftLe0 _); simpl; [| done].
    intros H. apply (cooldown_not_quota r). congruence.
Qed.

(** An admitted call under a cooldown stores its expiry. *)
Lemma check_admit_cooldown (nextMidnight : Z -> Z) st s name sc N maxD now :
  truthyStr (getRecordKey s sc) = true ->
  0 < N ->
  fst (checkRateLimit nextMidnight st s name sc N maxD now) = None ->
  cooldownExpiresAt
    (recordAt (snd (checkRateLimit nextMidnight st s name sc N maxD now))
       (recordIdFor s sc name))
  = Some (now + N * 1000).
Proof.
  intros Hkey HN. rewrite check_eq by done. cbv zeta.
  destruct (_ && _ && _); [discriminate |].
  destruct (_ && usesLeftLe0 _); [discriminate |].
  intros _. simpl. rewrite recordAt_insert. unfold commit.
  assert ((0 <? N) = true) as -> by (apply Z.ltb_lt; lia).
  by destruct (0 <? maxD).
Qed.



(** ** The invariant of the stored counts *)

Lemma quotaWellFormed_commit (nextMidnight : Z -> Z) (record : UsageRecord)
    (minI maxD now : Z) :
  quotaWellFormed record ->
  (0 <? maxD)
  && usesLeftLe0
       (dailyUsesLeft
          (if 0 <? maxD then resetWindow nextMidnight record maxD now else record))
  = false ->
  quotaWellFormed
    (commit (if 0 <? maxD then resetWindow nextMidnight record maxD now else record)
       minI maxD now).
Proof.
  unfold quotaWellFormed, commit, resetWindow.
  destruct record as [c u d]. simpl.
  destruct (0 <? maxD) eqn:Hmax; simpl.
  - destruct (negb (truthyNum d) || earlierThan d now) eqn:Hres; simpl.
    + intros _ _. destruct (0 <? minI); simpl; zbool; lia.
    + destruct u as [[n |] |]; simpl.
      * intros Hn Hle. destruct (0 <? minI); simpl; zbool; lia.
      * intros [].
      * intros ->. simpl in Hres. discriminate.
  - intros Hwf _. by destruct (0 <? minI).
Qed.

Lemma check_wellFormed (nextMidnight : Z -> Z) st s name sc minI maxD now :
  storeWellFormed st ->
  storeWellFormed (snd (checkRateLimit nextMidnight st s name sc minI maxD now)).
Proof.
  intros Hwf.
  destruct (truthyStr (getRecordKey s sc)) eqn:Hkey;
    [| by rewrite check_no_key].
  rewrite check_eq by done. cbv zeta.
  destruct (_ && _ && _); [exact Hwf |].
  destruct (_ && usesLeftLe0 _) eqn:Hdeny; [exact Hwf |].
  simpl. intros k r Hlk.
  destruct (decide (recordIdFor s sc name = k)) as [<- | Hne].
  - rewrite lookup_insert_eq in Hlk. injection Hlk as <-.
    apply quotaWellFormed_commit; [| exact Hdeny].
    unfold recordAt. destruct (st !! recordIdFor s sc name) as [r0 |] eqn:Hr0; simpl.
    + by apply (Hwf _ _ Hr0).
    + reflexivity.
  - rewrite lookup_insert_ne in Hlk by done. by apply (Hwf k).
Qed.

Lemma walk_wellFormed (nextMidnight : Z -> Z) config s now cmd :
  forall st,
    storeWellFormed st ->
    storeWellFormed (snd (walk nextMidnight config s now cmd st)).
Proof.
  induction cmd as [name cfg | name cfg p IH] using Command_chain_ind;
    intros st Hwf; rewrite walk_eq; cbv zeta.
  - destruct (activeLimit s cfg); [| exact Hwf].
    destruct (truthyStr _); simpl; by apply check_wellFormed.
  - destruct (activeLimit s cfg); [| by apply IH].
    destruct (truthyStr _); simpl; [by apply check_wellFormed |].
    apply IH. by apply check_wellFormed.
Qed.

Lemma hook_wellFormed (nextMidnight : Z -> Z) config s now command st :
  storeWellFormed st ->
  storeWellFormed (snd (beforeCommandExecute nextMidnight config s now command st)).
Proof.
  intros Hwf. unfold beforeCommandExecute.
  destruct (getEffectiveAction config s); simpl; [exact Hwf | | exact Hwf].
  by apply walk_wellFormed.
Qed.

Lemma reachable_wellFormed (nextMidnight : Z -> Z) st :
  Reachable nextMidnight st -> storeWellFormed st.
Proof.
  induction 1 as [| config s now command st _ IH].
  - intros k r Hlk. by rewrite lookup_empty in Hlk.
  - by apply hook_wellFormed.
Qed.

(** A call under a quota that finds the count at 0 inside a current window
    is denied, by the cooldown check or by the quota check. *)
Lemma check_zero_left_denied (nextMidnight : Z -> Z) st s name sc minI maxD now D :
  truthyStr (getRecordKey s sc) = true ->
  0 < maxD -> D <> 0 -> now <= D ->
  dailyResetAt (recordAt st (recordIdFor s sc name)) = Some D ->
  dailyUsesLeft (recordAt st (recordIdFor s sc name)) = Some (Num 0) ->
  fst (checkRateLimit nextMidnight st s name sc minI maxD now) <> None.
Proof.
  intros Hkey Hmax HD Hnow Hreset Huses. rewrite check_eq by done. cbv zeta.
  destruct (_ && _ && _); [done |].
  assert ((0 <? maxD) = true) as -> by (apply Z.ltb_lt; lia).
  unfold resetWindow. rewrite Hreset. simpl.
  assert ((D =? 0) = false) as -> by (apply Z.eqb_neq; lia).
  assert ((D <? now) = false) as -> by (apply Z.ltb_ge; lia).
  simpl. rewrite Huses. done.
Qed.

(** Claim C10.  On every store reached from the empty one by hook
    invocations, under any configurations with integer thresholds, a
    stored [dailyUsesLeft] is an integer that is not negative.  On such a
    store a denied call changes nothing, so the count goes down on
    admitted calls only, and a call under a quota that finds the count at
    0 inside the current window is denied. *)
Theorem dailyUsesLeft_nonneg (nextMidnight : Z -> Z) (st : gmap string UsageRecord) :
  Reachable nextMidnight st ->
  (forall k r u,
     st !! k = Some r -> dailyUsesLeft r = Some u -> exists n, u = Num n /\ 0 <= n) /\
  (forall s name sc minI maxD now h,
     fst (checkRateLimit nextMidnight st s name sc minI maxD now) = Some h ->
     snd (checkRateLimit nextMidnight st s name sc minI maxD now) = st) /\
  (forall s name sc minI maxD now D,
     truthyStr (getRecordKey s sc) = true ->
     0 < maxD -> D <> 0 -> now <= D ->
     dailyResetAt (recordAt st (recordIdFor s sc name)) = Some D ->
     dailyUsesLeft (recordAt st (recordIdFor s sc name)) = Some (Num 0) ->
     fst (checkRateLimit nextMidnight st s name sc minI maxD now) <> None).
Proof.
  intros Hreach. split; [| split].
  - intros k r u Hlk Hu.
    pose proof (reachable_wellFormed nextMidnight st Hreach k r Hlk) as Hwf.
    unfold quotaWellFormed in Hwf. rewrite Hu in Hwf.
    destruct u as [n |]; [by exists n | destruct Hwf].
  - intros s name sc minI maxD now h. apply check_deny_store.
  - intros s name sc minI maxD now D. apply check_zero_left_denied.
Qed.

(** * The theorems at concrete inputs *)

(** Command [remind] with [scope = user], [minInterval = 60] and
    [maxDayUsage = 3], called by U1 at 0 s, 10 s, 61 s, 62 s, 130 s and
    200 s, then just after midnight. *)
Example remind_scenario :
  fst (callsAt utcMidnight ∅ sessionU1 "remind" ScopeUser 60 3
         [0; 10000; 61000; 62000; 130000; 200000; 86400001])
  = [None; Some (cooldownMessage 50); None; Some (cooldownMessage 59); None;
     Some quotaMessage; None].
Proof. vm_compute. reflexivity. Qed.

(** An exhausted count does not deny under [maxDayUsage = 0], and a level
    with both thresholds at 0 is passed over. *)
Lemma disabled_by_zero_witness :
  fst (checkRateLimit utcMidnight storeAUsed sessionU1 "a" ScopeUser 60 0 6)
  <> Some quotaMessage /\
  walk utcMidnight noRules sessionU1 6
    (mkCommand "z" (staticLimit ScopeUser 0 0) (Some cmdA)) storeAUsed
  = walkParent utcMidnight noRules sessionU1 6 (Some cmdA) storeAUsed.
Proof.
  destruct (disabled_by_zero utcMidnight storeAUsed sessionU1 "a" ScopeUser)
    as [_ [Hquota _]].
  destruct (disabled_by_zero utcMidnight storeAUsed sessionU1 "z" ScopeUser)
    as [_ [_ [_ [_ Hwalk]]]].
  split.
  - apply Hquota.
  - apply Hwalk; reflexivity.
Defined.



(** User U1 is exempt although channel C1, listed first, is blocked. *)
Lemma rule_precedence_witness :
  getEffectiveAction (someRules true) sessionU1 = Ignore /\
  getEffectiveAction (someRules true) sessionU2 = Block /\
  getEffectiveAction noRules sessionU1 = Limit.
Proof.
  split; [| split].
  - apply (proj1 (rule_precedence (someRules true) sessionU1 "U1" "C1" eq_refl eq_refl)
             RuleIgnore).
    split.
    + exists (mkRule RuleUser "U1" RuleIgnore). repeat split. simpl.
      apply list_elem_of_further, list_elem_of_here.
    + intros r Hin Ht Hc. simpl in Hin.
      repeat (apply elem_of_cons in Hin as [-> | Hin]); try discriminate; try reflexivity.
      by apply not_elem_of_nil in Hin.
  - apply (proj1 (rule_precedence (someRules true) sessionU2 "U2" "C9" eq_refl eq_refl)
             RuleBlock).
    split.
    + exists (mkRule RuleUser "U2" RuleBlock). repeat split. simpl.
      do 2 apply list_elem_of_further. apply list_elem_of_here.
    + intros r Hin Ht Hc. simpl in Hin.
      repeat (apply elem_of_cons in Hin as [-> | Hin]); try discriminate; try reflexivity.
      by apply not_elem_of_nil in Hin.
  - apply (proj1 (proj2 (proj2 (rule_precedence noRules sessionU1 "U1" "C1"
                                  eq_refl eq_refl))));
      intros r Hin; by apply not_elem_of_nil in Hin.
Defined.

Lemma ignore_skips_everything_witness :
  getEffectiveAction (someRules true) sessionU1 = Ignore /\
  beforeCommandExecute utcMidnight (someRules true) sessionU1 5 cmdChannelOnly storeAUsed
  = (None, storeAUsed).
Proof.
  split; [reflexivity |].
  apply ignore_skips_everything. reflexivity.
Defined.

(** The loop started at [a.b] on [storeAUsed] is denied by the quota of
    [a], after [a.b] itself admitted the call. *)
Lemma denying_step_example :
  DenyingStep utcMidnight sessionU1 6 cmdAB storeAUsed quotaMessage
    (snd (checkRateLimit utcMidnight storeAUsed sessionU1 "a:b" ScopeUser 0 5 6)).
Proof.
  unfold cmdAB, cmdA.
  eapply Deny_above_admitted; [reflexivity | vm_compute; reflexivity |].
  apply Deny_here; [reflexivity | vm_compute; reflexivity].
Qed.

Lemma hint_policy_witness :
  beforeCommandExecute utcMidnight (someRules true) sessionU2 5 cmdAB ∅ = (Some "", ∅) /\
  fst (beforeCommandExecute utcMidnight (mkConfig true []) sessionU1 6 cmdAB storeAUsed)
  = Some quotaMessage /\
  fst (beforeCommandExecute utcMidnight (mkConfig false []) sessionU1 6 cmdAB storeAUsed)
  = Some "".
Proof.
  split; [| split].
  - apply (proj1 (hint_policy utcMidnight true (commandRules (someRules true))
                    sessionU2 5 cmdAB ∅)).
    reflexivity.
  - rewrite (proj1 (proj2 (hint_policy utcMidnight true [] sessionU1 6 cmdAB storeAUsed))
               eq_refl _ _ denying_step_example).
    reflexivity.
  - rewrite (proj1 (proj2 (hint_policy utcMidnight false [] sessionU1 6 cmdAB storeAUsed))
               eq_refl _ _ denying_step_example).
    reflexivity.
Defined.

(** Negative thresholds on a record with a running cooldown and an
    exhausted quota: the call is admitted all the same. *)
Lemma negative_thresholds_disable_witness :
  (-5 < 0 \/ -1 < 0) /\
  fst (checkRateLimit utcMidnight
         (snd (checkRateLimit utcMidnight ∅ sessionU1 "n" ScopeUser 60 1 0))
         sessionU1 "n" ScopeUser (-5) (-1) 7)
  = None.
Proof.
  split; [left; lia |].
  destruct (negative_thresholds_disable utcMidnight
              (snd (checkRateLimit utcMidnight ∅ sessionU1 "n" ScopeUser 60 1 0))
              sessionU1 "n" ScopeUser (-5) (-1) 7) as [_ [_ H]]; [left; lia |].
  apply H; lia.
Defined.

(** A private session has no channel: a channel-scoped level is passed. *)
Lemma absent_key_skips_level_witness :
  getRecordKey sessionPrivate ScopeChannel = None /\
  checkRateLimit utcMidnight storeAUsed sessionPrivate "c:d" ScopeChannel 60 3 5
  = (None, storeAUsed) /\
  walk utcMidnight noRules sessionPrivate 5 cmdChannelOnly ∅
  = walkParent utcMidnight noRules sessionPrivate 5 (Some cmdA) ∅.
Proof.
  split; [reflexivity |].
  destruct (absent_key_skips_level utcMidnight storeAUsed sessionPrivate ScopeChannel
              (or_introl eq_refl)) as [Hcheck _].
  destruct (absent_key_skips_level utcMidnight ∅ sessionPrivate ScopeChannel
              (or_introl eq_refl)) as [_ Hwalk].
  split; [apply Hcheck | apply Hwalk; reflexivity].
Defined.

Lemma dailyUsesLeft_nonneg_witness :
  Reachable utcMidnight (snd (beforeCommandExecute utcMidnight noRules sessionU1 5 cmdAB ∅)) /\
  snd (beforeCommandExecute utcMidnight noRules sessionU1 5 cmdAB ∅) !! "user:U1:a"
  = Some {| cooldownExpiresAt := None;
            dailyUsesLeft := Some (Num 0);
            dailyResetAt := Some 86400000 |} /\
  exists n, Num 0 = Num n /\ 0 <= n.
Proof.
  split; [apply Reachable_invoke, Reachable_init |].
  split; [vm_compute; reflexivity |].
  apply (proj1 (dailyUsesLeft_nonneg utcMidnight
                  (snd (beforeCommandExecute utcMidnight noRules sessionU1 5 cmdAB ∅))
                  (Reachable_invoke utcMidnight noRules sessionU1 5 cmdAB ∅
                     (Reachable_init utcMidnight)))
           "user:U1:a"
           {| cooldownExpiresAt := None;
              dailyUsesLeft := Some (Num 0);
              dailyResetAt := Some 86400000 |}
           (Num 0)).
  - vm_compute. reflexivity.
  - reflexivity.
Defined.

(** * Further properties of the code *)

(** ** Record identifiers *)

Lemma hasChar_append_inj (c : ascii) (k k' n n' : string) :
  hasChar c k = false -> hasChar c k' = false ->
  k +:+ String c n = k' +:+ String c n' ->
  k = k' /\ n = n'.
Proof.
  revert k'. induction k as [| a k IH]; intros [| a' k']; simpl.
  - intros _ _ [= ->]. done.
  - intros _ Hk' [= <- _]. rewrite Ascii.eqb_refl in Hk'. discriminate.
  - intros Hk _ [= -> _]. rewrite Ascii.eqb_refl in Hk. discriminate.
  - intros Hk Hk' [= <- Hrest].
    apply orb_false_iff in Hk as [_ Hk]. apply orb_false_iff in Hk' as [_ Hk'].
    destruct (IH k' Hk Hk' Hrest) as [-> ->]. done.
Qed.

Lemma recordIdOf_scope (sc sc' : Scope) (k k' n n' : string) :
  recordIdOf sc k n = recordIdOf sc' k' n' ->
  sc = sc' /\ k +:+ ":" +:+ n = k' +:+ ":" +:+ n'.
Proof.
  unfold recordIdOf. destruct sc, sc'; simpl; intros H; try discriminate;
    injection H as H; done.
Qed.

(** The identifier `${scope}:${key}:${commandName}` names its scope, and
    names key and command name too when the keys hold no colon: records of
    different scopes never share an identifier, and two sessions whose
    keys are free of colons share one only for the same key and the same
    command name. *)
Theorem recordIdOf_inj (sc sc' : Scope) (k k' n n' : string) :
  recordIdOf sc k n = recordIdOf sc' k' n' ->
  sc = sc' /\
  (hasChar ":" k = false -> hasChar ":" k' = false -> k = k' /\ n = n').
Proof.
  intros H. apply recordIdOf_scope in H as [-> H]. split; [reflexivity |].
  intros Hk Hk'. by apply (hasChar_append_inj ":" k k' n n').
Qed.

Lemma recordIdOf_inj_witness :
  recordIdOf ScopeUser "U1" "a:b" = recordIdOf ScopeUser "U1" "a:b" /\
  ScopeUser = ScopeUser /\ "U1" = "U1" /\ "a:b" = "a:b".
Proof.
  split; [reflexivity |].
  destruct (recordIdOf_inj ScopeUser ScopeUser "U1" "U1" "a:b" "a:b" eq_refl)
    as [Hsc Hrest].
  split; [exact Hsc | apply Hrest; reflexivity].
Defined.

Lemma replaceDots_no_dot (s : string) : hasChar "." (replaceDots s) = false.
Proof.
  induction s as [| a s IH]; [reflexivity |].
  simpl. rewrite IH, orb_false_r.
  destruct (Ascii.eqb a ".") eqn:Ha; [reflexivity | exact Ha].
Qed.

Lemma replaceDots_length (s : string) :
  String.length (replaceDots s) = String.length s.
Proof. induction s as [| a s IH]; [reflexivity |]. simpl. by rewrite IH. Qed.

Lemma replaceDots_colon_free_inj (a b : string) :
  hasChar ":" a = false -> hasChar ":" b = false ->
  replaceDots a = replaceDots b -> a = b.
Proof.
  revert b. induction a as [| x a IH]; intros [| y b]; simpl; try done.
  intros Ha Hb [= Hhead Hrest].
  apply orb_false_iff in Ha as [Hx Ha]. apply orb_false_iff in Hb as [Hy Hb].
  rewrite (IH b Ha Hb Hrest). f_equal.
  destruct (Ascii.eqb x ".") eqn:Ex; destruct (Ascii.eqb y ".") eqn:Ey.
  - apply Ascii.eqb_eq in Ex, Ey. congruence.
  - subst y. rewrite Ascii.eqb_refl in Hy. discriminate.
  - subst x. rewrite Ascii.eqb_refl in Hx. discriminate.
  - exact Hhead.
Qed.

(** The name used in record identifiers, [cmd.name] with every dot turned
    into a colon, holds no dot and has the length of the name; two command
    names free of colons that get the same normalized name are the same
    name, so a subcommand never shares the records of another dotted
    command. *)
Theorem replaceDots_faithful (a b : string) :
  hasChar "." (replaceDots a) = false /\
  String.length (replaceDots a) = String.length a /\
  (hasChar ":" a = false -> hasChar ":" b = false ->
   replaceDots a = replaceDots b -> a = b).
Proof.
  split; [apply replaceDots_no_dot | split; [apply replaceDots_length |]].
  apply replaceDots_colon_free_inj.
Qed.

Lemma replaceDots_faithful_witness :
  replaceDots "admin.user.ban" = "admin:user:ban" /\
  hasChar "." (replaceDots "admin.user.ban") = false /\
  (replaceDots "a.b" = replaceDots "a.b" -> "a.b" = "a.b").
Proof.
  split; [reflexivity |].
  destruct (replaceDots_faithful "admin.user.ban" "") as [Hdot _].
  destruct (replaceDots_faithful "a.b" "a.b") as [_ [_ Hinj]].
  split; [exact Hdot | apply Hinj; reflexivity].
Defined.

(** ** The rule table *)

Lemma actionOf_not_limit (a : RuleAction) : actionOf a <> Limit.
Proof. by destruct a. Qed.

Lemma actionOf_inj (a b : RuleAction) : actionOf a = actionOf b -> a = b.
Proof. by destruct a, b. Qed.

(** The table never holds [limit].  For a session that carries a user
    identifier [u] and a channel identifier [c]: the session is rate
    limited exactly when the rule list has no entry for user [u] and none
    for channel [c], and an [ignore] or [block] outcome always stems from
    an entry of the list that names user [u] or channel [c] with that
    action. *)
Theorem override_needs_entry (config : Config) (s : Session) (u c : string) :
  userId s = Some u ->
  channelId s = Some c ->
  (getEffectiveAction config s = Limit <->
   noEntryFor RuleUser u (commandRules config) /\
   noEntryFor RuleChannel c (commandRules config)) /\
  (forall a,
     getEffectiveAction config s = actionOf a ->
     exists r, r ∈ commandRules config /\ rule_action r = a /\
       ((rule_type r = RuleUser /\ rule_content r = u) \/
        (rule_type r = RuleChannel /\ rule_content r = c))).
Proof.
  intros Hu Hc. rewrite getEffectiveAction_lastEntry, Hu, Hc. simpl.
  destruct (lastEntry RuleUser u _) as [x |] eqn:Hx.
  - apply lastEntry_some in Hx as [r [Hin [Ht [Hcont Ha]]]]. split.
    + split.
      * intros ->. by destruct (actionOf_not_limit (rule_action r)).
      * intros [Hno _]. by destruct (Hno r Hin).
    + intros a ->. apply actionOf_inj in Ha. exists r. by auto.
  - apply lastEntry_none_inv in Hx.
    destruct (lastEntry RuleChannel c _) as [y |] eqn:Hy.
    + apply lastEntry_some in Hy as [r [Hin [Ht [Hcont Ha]]]]. split.
      * split.
        -- intros ->. by destruct (actionOf_not_limit (rule_action r)).
        -- intros [_ Hno]. by destruct (Hno r Hin).
      * intros a ->. apply actionOf_inj in Ha. exists r. by auto.
    + apply lastEntry_none_inv in Hy. split; [done |].
      intros a Ha. symmetry in Ha. by destruct (actionOf_not_limit a).
Qed.

Lemma override_needs_entry_witness :
  getEffectiveAction (someRules true) sessionU1 <> Limit /\
  (getEffectiveAction noRules sessionU2 = Limit) /\
  exists r, r ∈ commandRules (someRules true) /\ rule_action r = RuleBlock.
Proof.
  split; [| split].
  - intros H.
    apply (proj1 (proj1 (override_needs_entry (someRules true) sessionU1 "U1" "C1"
                           eq_refl eq_refl))) in H as [Hno _].
    apply (Hno (mkRule RuleUser "U1" RuleIgnore)); [| done].
    apply list_elem_of_further, list_elem_of_here.
  - apply (proj2 (proj1 (override_needs_entry noRules sessionU2 "U2" "C9"
                           eq_refl eq_refl))).
    split; intros r Hin; by apply not_elem_of_nil in Hin.
  - destruct (proj2 (override_needs_entry (someRules true) sessionU2 "U2" "C9"
                       eq_refl eq_refl) RuleBlock eq_refl)
      as [r [Hin [Ha _]]].
    by exists r.
Defined.

Lemma rules_snoc (hint : bool) (entries : list CommandFilterRule) (r : CommandFilterRule) :
  rules (mkConfig hint (entries ++ [r])) =
  <[ruleKey (rule_type r) (rule_content r) := actionOf (rule_action r)]>
    (rules (mkConfig hint entries)).
Proof. unfold rules. simpl. by rewrite fold_left_app. Qed.

(** A later entry overrides: after one more entry is put at the end of
    the rule list, the table gives the identity of that entry the action
    of that entry, whatever the list held for it before, and gives every
    other identity what it gave before. *)
Theorem rules_last_entry_wins (hint : bool) (entries : list CommandFilterRule)
    (r : CommandFilterRule) (t : RuleType) (id : string) :
  rules (mkConfig hint (entries ++ [r])) !! ruleKey t id =
  if ruleMatches t id r then Some (actionOf (rule_action r))
  else rules (mkConfig hint entries) !! ruleKey t id.
Proof.
  rewrite rules_snoc.
  destruct (ruleMatches t id r) eqn:Hm.
  - apply ruleMatches_spec in Hm as [<- <-]. by rewrite lookup_insert_eq.
  - rewrite lookup_insert_ne; [reflexivity |].
    intros Heq. apply ruleKey_inj in Heq as [Ht Hc].
    assert (ruleMatches t id r = true) by (apply ruleMatches_spec; done).
    congruence.
Qed.

(** ** One call and the store *)

(** [checkRateLimit] reads the store at its identifier only and writes
    there at most. *)
Lemma check_form (nextMidnight : Z -> Z) st s name sc minI maxD now :
  checkRateLimit nextMidnight st s name sc minI maxD now =
  (fst (levelOutcome nextMidnight s sc (recordAt st (recordIdFor s sc name))
          minI maxD now),
   writeBack (recordIdFor s sc name)
     (snd (levelOutcome nextMidnight s sc (recordAt st (recordIdFor s sc name))
             minI maxD now))
     st).
Proof.
  unfold levelOutcome.
  destruct (truthyStr (getRecordKey s sc)) eqn:Hkey; simpl.
  - rewrite check_eq by done. cbv zeta.
    destruct (_ && _ && _); [reflexivity |].
    by destruct (_ && usesLeftLe0 _).
  - by rewrite check_no_key.
Qed.

Lemma writeBack_lookup_ne (rid k : string) (o : option UsageRecord)
    (st : gmap string UsageRecord) :
  rid <> k -> writeBack rid o st !! k = st !! k.
Proof. intros Hne. destruct o; simpl; [by rewrite lookup_insert_ne | done]. Qed.

Lemma writeBack_commute (rid1 rid2 : string) (o1 o2 : option UsageRecord)
    (st : gmap string UsageRecord) :
  rid1 <> rid2 ->
  writeBack rid2 o2 (writeBack rid1 o1 st) = writeBack rid1 o1 (writeBack rid2 o2 st).
Proof.
  intros Hne. destruct o1, o2; simpl; try reflexivity.
  by apply insert_insert_ne.
Qed.

Lemma recordAt_writeBack_ne (rid k : string) (o : option UsageRecord)
    (st : gmap string UsageRecord) :
  rid <> k -> recordAt (writeBack rid o st) k = recordAt st k.
Proof. intros Hne. unfold recordAt. by rewrite writeBack_lookup_ne. Qed.

(** A call leaves every record but the one of its own identifier as it
    was: limits of other users, channels, scopes and commands are not
    touched. *)
Theorem check_frame (nextMidnight : Z -> Z) (st : gmap string UsageRecord)
    (s : Session) (name : string) (sc : Scope) (minI maxD now : Z) (k : string) :
  k <> recordIdFor s sc name ->
  snd (checkRateLimit nextMidnight st s name sc minI maxD now) !! k = st !! k.
Proof.
  intros Hne. rewrite check_form. simpl. by apply writeBack_lookup_ne.
Qed.

Lemma check_frame_witness :
  "user:U1:a" <> recordIdFor sessionU1 ScopeUser "remind" /\
  snd (checkRateLimit utcMidnight storeAUsed sessionU1 "remind" ScopeUser 60 3 7)
    !! "user:U1:a"
  = storeAUsed !! "user:U1:a".
Proof.
  assert (Hne : "user:U1:a" <> recordIdFor sessionU1 ScopeUser "remind")
    by (vm_compute; discriminate).
  split; [exact Hne |].
  exact (check_frame utcMidnight storeAUsed sessionU1 "remind" ScopeUser 60 3 7
           "user:U1:a" Hne).
Defined.

(** The outcome of a call depends on the store through the record of its
    own identifier alone: on two stores that agree there, the call returns
    the same result and leaves the same record. *)
Theorem check_local (nextMidnight : Z -> Z) (st st' : gmap string UsageRecord)
    (s : Session) (name : string) (sc : Scope) (minI maxD now : Z) :
  recordAt st (recordIdFor s sc name) = recordAt st' (recordIdFor s sc name) ->
  fst (checkRateLimit nextMidnight st s name sc minI maxD now) =
  fst (checkRateLimit nextMidnight st' s name sc minI maxD now) /\
  recordAt (snd (checkRateLimit nextMidnight st s name sc minI maxD now))
    (recordIdFor s sc name) =
  recordAt (snd (checkRateLimit nextMidnight st' s name sc minI maxD now))
    (recordIdFor s sc name).
Proof.
  intros Hsame. rewrite !check_form. simpl. rewrite <- Hsame.
  split; [reflexivity |].
  destruct (snd (levelOutcome _ _ _ _ _ _ _)) as [r |]; simpl.
  - by rewrite !recordAt_insert.
  - exact Hsame.
Qed.

Lemma check_local_witness :
  recordAt ∅ (recordIdFor sessionU1 ScopeUser "remind") =
  recordAt storeAUsed (recordIdFor sessionU1 ScopeUser "remind") /\
  fst (checkRateLimit utcMidnight ∅ sessionU1 "remind" ScopeUser 60 3 7) =
  fst (checkRateLimit utcMidnight storeAUsed sessionU1 "remind" ScopeUser 60 3 7).
Proof.
  split; [reflexivity |].
  exact (proj1 (check_local utcMidnight ∅ storeAUsed sessionU1 "remind" ScopeUser
                  60 3 7 eq_refl)).
Defined.

(** Calls of two different record identifiers commute: in either order
    each call returns the same result and the store ends up the same. *)
Theorem check_commute (nextMidnight : Z -> Z) (st : gmap string UsageRecord)
    (s1 s2 : Session) (name1 name2 : string) (sc1 sc2 : Scope)
    (minI1 maxD1 now1 minI2 maxD2 now2 : Z) :
  recordIdFor s1 sc1 name1 <> recordIdFor s2 sc2 name2 ->
  fst (checkRateLimit nextMidnight
         (snd (checkRateLimit nextMidnight st s1 name1 sc1 minI1 maxD1 now1))
         s2 name2 sc2 minI2 maxD2 now2)
  = fst (checkRateLimit nextMidnight st s2 name2 sc2 minI2 maxD2 now2) /\
  fst (checkRateLimit nextMidnight
         (snd (checkRateLimit nextMidnight st s2 name2 sc2 minI2 maxD2 now2))
         s1 name1 sc1 minI1 maxD1 now1)
  = fst (checkRateLimit nextMidnight st s1 name1 sc1 minI1 maxD1 now1) /\
  snd (checkRateLimit nextMidnight
         (snd (checkRateLimit nextMidnight st s1 name1 sc1 minI1 maxD1 now1))
         s2 name2 sc2 minI2 maxD2 now2)
  = snd (checkRateLimit nextMidnight
           (snd (checkRateLimit nextMidnight st s2 name2 sc2 minI2 maxD2 now2))
           s1 name1 sc1 minI1 maxD1 now1).
Proof.
  intros Hne. rewrite !check_form. simpl.
  rewrite recordAt_writeBack_ne by done.
  rewrite recordAt_writeBack_ne by done.
  repeat split. by apply writeBack_commute.
Qed.

Lemma check_commute_witness :
  recordIdFor sessionU1 ScopeUser "remind" <> recordIdFor sessionU2 ScopeUser "remind" /\
  snd (checkRateLimit utcMidnight
         (snd (checkRateLimit utcMidnight ∅ sessionU1 "remind" ScopeUser 60 3 7))
         sessionU2 "remind" ScopeUser 60 3 8)
  = snd (checkRateLimit utcMidnight
           (snd (checkRateLimit utcMidnight ∅ sessionU2 "remind" ScopeUser 60 3 8))
           sessionU1 "remind" ScopeUser 60 3 7).
Proof.
  assert (Hne : recordIdFor sessionU1 ScopeUser "remind"
                <> recordIdFor sessionU2 ScopeUser "remind")
    by (vm_compute; discriminate).
  split; [exact Hne |].
  exact (proj2 (proj2 (check_commute utcMidnight ∅ sessionU1 sessionU2
                         "remind" "remind" ScopeUser ScopeUser 60 3 7 60 3 8 Hne))).
Defined.

(** ** One invocation and the store *)

Lemma chain_unfold (name : string) (cfg : CommandConfig) (parent : option Command) :
  chain (mkCommand name cfg parent) =
  mkCommand name cfg parent :: match parent with
                               | Some p => chain p
                               | None => []
                               end.
Proof. reflexivity. Qed.

Lemma walk_frame (nextMidnight : Z -> Z) config s now cmd k :
  forall st,
    (forall lvl, lvl ∈ chain cmd -> levelRecordId s lvl <> k) ->
    snd (walk nextMidnight config s now cmd st) !! k = st !! k.
Proof.
  induction cmd as [name cfg | name cfg p IH] using Command_chain_ind;
    intros st Hk; rewrite walk_eq; cbv zeta;
    pose proof (Hk _ (list_elem_of_here _ _)) as Hhere;
    unfold levelRecordId in Hhere; simpl in Hhere;
    fold (recordIdFor s (resolve s (scope cfg)) (replaceDots name)) in Hhere.
  - destruct (activeLimit s cfg); [| reflexivity].
    rewrite check_form. simpl.
    destruct (truthyStr _); simpl; by rewrite writeBack_lookup_ne.
  - assert (Hp : forall lvl, lvl ∈ chain p -> levelRecordId s lvl <> k).
    { intros lvl Hin. apply Hk. rewrite chain_unfold. by right. }
    destruct (activeLimit s cfg); [| by apply IH].
    rewrite check_form. simpl.
    destruct (truthyStr _); simpl.
    + by rewrite writeBack_lookup_ne.
    + rewrite IH by done. by rewrite writeBack_lookup_ne.
Qed.

(** An invocation touches no record but those of the levels of its own
    chain: a record whose identifier is that of no level, for the session
    that invokes, reads after the hook as it read before. *)
Theorem hook_frame (nextMidnight : Z -> Z) (config : Config) (s : Session) (now : Z)
    (command : Command) (st : gmap string UsageRecord) (k : string) :
  (forall lvl, lvl ∈ chain command -> levelRecordId s lvl <> k) ->
  snd (beforeCommandExecute nextMidnight config s now command st) !! k = st !! k.
Proof.
  intros Hk. unfold beforeCommandExecute.
  destruct (getEffectiveAction config s); simpl; try reflexivity.
  by apply walk_frame.
Qed.

Lemma hook_frame_witness :
  (forall lvl, lvl ∈ chain cmdAB -> levelRecordId sessionU2 lvl <> "user:U1:a") /\
  snd (beforeCommandExecute utcMidnight noRules sessionU2 6 cmdAB storeAUsed)
    !! "user:U1:a"
  = storeAUsed !! "user:U1:a".
Proof.
  assert (Hk : forall lvl, lvl ∈ chain cmdAB -> levelRecordId sessionU2 lvl <> "user:U1:a").
  { intros lvl Hin. simpl in Hin.
    repeat (apply elem_of_cons in Hin as [-> | Hin]);
      [vm_compute; discriminate | vm_compute; discriminate |].
    by apply not_elem_of_nil in Hin. }
  split; [exact Hk |].
  exact (hook_frame utcMidnight noRules sessionU2 6 cmdAB storeAUsed "user:U1:a" Hk).
Defined.

Lemma writeBack_keeps (rid k : string) (o : option UsageRecord)
    (st : gmap string UsageRecord) :
  is_Some (st !! k) -> is_Some (writeBack rid o st !! k).
Proof.
  intros Hk. destruct o as [r |]; simpl; [| exact Hk].
  destruct (decide (rid = k)) as [-> | Hne].
  - rewrite lookup_insert_eq. by eexists.
  - by rewrite lookup_insert_ne.
Qed.

Lemma walk_keeps (nextMidnight : Z -> Z) config s now cmd k :
  forall st,
    is_Some (st !! k) ->
    is_Some (snd (walk nextMidnight config s now cmd st) !! k).
Proof.
  induction cmd as [name cfg | name cfg p IH] using Command_chain_ind;
    intros st Hk; rewrite walk_eq; cbv zeta.
  - destruct (activeLimit s cfg); [| exact Hk].
    rewrite check_form. simpl.
    destruct (truthyStr _); simpl; by apply writeBack_keeps.
  - destruct (activeLimit s cfg); [| by apply IH].
    rewrite check_form. simpl.
    destruct (truthyStr _); simpl; [by apply writeBack_keeps |].
    apply IH. by apply writeBack_keeps.
Qed.

(** Records are never deleted: an identifier that has a record before
    an invocation has one after it, whatever the outcome. *)
Theorem records_never_deleted (nextMidnight : Z -> Z) (config : Config) (s : Session)
    (now : Z) (command : Command) (st : gmap string UsageRecord) :
  dom st ⊆ dom (snd (beforeCommandExecute nextMidnight config s now command st)).
Proof.
  intros k Hk. apply elem_of_dom in Hk. apply elem_of_dom.
  unfold beforeCommandExecute.
  destruct (getEffectiveAction config s); simpl; try exact Hk.
  by apply walk_keeps.
Qed.

Lemma walk_all_inactive (nextMidnight : Z -> Z) config s now cmd :
  forall st,
    Forall (fun lvl => activeLimit s (cmd_config lvl) = false) (chain cmd) ->
    walk nextMidnight config s now cmd st = (None, st).
Proof.
  induction cmd as [name cfg | name cfg p IH] using Command_chain_ind;
    intros st Hall; rewrite chain_unfold in Hall;
    apply Forall_cons in Hall as [Hhere Hrest]; simpl in Hhere;
    rewrite walk_inactive by done; simpl.
  - reflexivity.
  - by apply IH.
Qed.

(** A command that configures no limit, under ancestors that configure
    none, is never limited: when both thresholds resolve to 0 at every
    level of the chain, the hook leaves the store as it was and lets the
    command run unless a [block] rule names the session. *)
Theorem unlimited_chain (nextMidnight : Z -> Z) (config : Config) (s : Session)
    (now : Z) (command : Command) (st : gmap string UsageRecord) :
  Forall (fun lvl => activeLimit s (cmd_config lvl) = false) (chain command) ->
  snd (beforeCommandExecute nextMidnight config s now command st) = st /\
  (getEffectiveAction config s <> Block ->
   fst (beforeCommandExecute nextMidnight config s now command st) = None).
Proof.
  intros Hall. unfold beforeCommandExecute.
  destruct (getEffectiveAction config s); simpl.
  - split; [reflexivity | done].
  - by rewrite walk_all_inactive.
  - split; [reflexivity | done].
Qed.

Lemma unlimited_chain_witness :
  Forall (fun lvl => activeLimit sessionU1 (cmd_config lvl) = false)
    (chain (mkCommand "help.all" defaultCommandConfig
              (Some (mkCommand "help" defaultCommandConfig None)))) /\
  beforeCommandExecute utcMidnight noRules sessionU1 6
    (mkCommand "help.all" defaultCommandConfig
       (Some (mkCommand "help" defaultCommandConfig None))) storeAUsed
  = (None, storeAUsed).
Proof.
  assert (Hall : Forall (fun lvl => activeLimit sessionU1 (cmd_config lvl) = false)
                   (chain (mkCommand "help.all" defaultCommandConfig
                             (Some (mkCommand "help" defaultCommandConfig None)))))
    by (repeat constructor).
  split; [exact Hall |].
  destruct (unlimited_chain utcMidnight noRules sessionU1 6
              (mkCommand "help.all" defaultCommandConfig
                 (Some (mkCommand "help" defaultCommandConfig None)))
              storeAUsed Hall) as [Hst Hres].
  rewrite (surjective_pairing (beforeCommandExecute _ _ _ _ _ _)).
  rewrite Hst, Hres; [reflexivity | discriminate].
Defined.

(** The update of a level that admits stays, whatever its ancestors
    decide: under the action [limit], when the invoked command carries an
    active limit and its check admits the call, the record of that level
    after the hook is the one that check wrote, also when an ancestor then
    denies the invocation (no ancestor using the same identifier). *)
Theorem admitted_level_update_stays (nextMidnight : Z -> Z) (config : Config)
    (s : Session) (now : Z) (name : string) (cfg : CommandConfig)
    (parent : option Command) (st : gmap string UsageRecord) :
  getEffectiveAction config s = Limit ->
  activeLimit s cfg = true ->
  fst (checkRateLimit nextMidnight st s (replaceDots name) (resolve s (scope cfg))
         (resolve s (minInterval cfg)) (resolve s (maxDayUsage cfg)) now) = None ->
  (forall lvl,
     lvl ∈ match parent with Some p => chain p | None => [] end ->
     levelRecordId s lvl <> levelRecordId s (mkCommand name cfg parent)) ->
  snd (beforeCommandExecute nextMidnight config s now (mkCommand name cfg parent) st)
    !! levelRecordId s (mkCommand name cfg parent)
  = snd (checkRateLimit nextMidnight st s (replaceDots name) (resolve s (scope cfg))
           (resolve s (minInterval cfg)) (resolve s (maxDayUsage cfg)) now)
      !! levelRecordId s (mkCommand name cfg parent).
Proof.
  intros Hact Ha Hadmit Hother. unfold beforeCommandExecute. rewrite Hact.
  rewrite walk_admitted by done.
  destruct parent as [p |]; simpl; [| reflexivity].
  by apply walk_frame.
Qed.

Lemma admitted_level_update_stays_witness :
  fst (beforeCommandExecute utcMidnight noRules sessionU1 6 cmdAB storeAUsed)
  = Some quotaMessage /\
  snd (beforeCommandExecute utcMidnight noRules sessionU1 6 cmdAB storeAUsed)
    !! "user:U1:a:b"
  = Some {| cooldownExpiresAt := None;
            dailyUsesLeft := Some (Num 4);
            dailyResetAt := Some 86400000 |}.
Proof.
  split; [vm_compute; reflexivity |].
  change "user:U1:a:b" with (levelRecordId sessionU1 cmdAB).
  unfold cmdAB.
  rewrite (admitted_level_update_stays utcMidnight noRules sessionU1 6 "a.b"
             (staticLimit ScopeUser 0 5) (Some cmdA) storeAUsed).
  - vm_compute. reflexivity.
  - reflexivity.
  - reflexivity.
  - vm_compute. reflexivity.
  - intros lvl Hin. simpl in Hin.
    apply elem_of_cons in Hin as [-> | Hin]; [vm_compute; discriminate |].
    by apply not_elem_of_nil in Hin.
Defined.

(** ** What the hook returns *)

Lemma denying_step_hint (nextMidnight : Z -> Z) s now cmd st h st' :
  DenyingStep nextMidnight s now cmd st h st' ->
  h = quotaMessage \/ exists r, 1 <= r /\ h = cooldownMessage r.
Proof.
  induction 1 as [name cfg parent st h st' Ha Hc | | ]; try assumption.
  destruct (check_result nextMidnight st s (replaceDots name) (resolve s (scope cfg))
              (resolve s (minInterval cfg)) (resolve s (maxDayUsage cfg)) now)
    as [Hr | [[_ Hr] | [_ [r [Hr1 Hr]]]]]; rewrite Hc in Hr; simpl in Hr.
  - discriminate.
  - left. congruence.
  - right. exists r. split; [exact Hr1 | congruence].
Qed.

(** The hook returns [undefined], the empty string, the quota message or
    a cooldown message that names at least one second, and nothing else.
    With [sendHint] off it never returns a message; with [sendHint] on, a
    denial by a limit is never silent: the empty string then comes from a
    [block] rule only. *)
Theorem hook_results (nextMidnight : Z -> Z) (config : Config) (s : Session)
    (now : Z) (command : Command) (st : gmap string UsageRecord) :
  (fst (beforeCommandExecute nextMidnight config s now command st) = None \/
   fst (beforeCommandExecute nextMidnight config s now command st) = Some "" \/
   fst (beforeCommandExecute nextMidnight config s now command st) = Some quotaMessage \/
   exists r, 1 <= r /\
     fst (beforeCommandExecute nextMidnight config s now command st)
     = Some (cooldownMessage r)) /\
  (sendHint config = false ->
   fst (beforeCommandExecute nextMidnight config s now command st) = None \/
   fst (beforeCommandExecute nextMidnight config s now command st) = Some "") /\
  (sendHint config = true ->
   fst (beforeCommandExecute nextMidnight config s now command st) = Some "" ->
   getEffectiveAction config s = Block).
Proof.
  unfold beforeCommandExecute.
  destruct (getEffectiveAction config s) eqn:Hact; simpl.
  - repeat split; auto.
  - destruct (walk nextMidnight config s now command st) as [[x |] st'] eqn:Hw; simpl.
    + destruct (walk_some_denying_step nextMidnight config s now command st x st' Hw)
        as [h [Hd ->]].
      apply denying_step_hint in Hd.
      destruct (sendHint config); split; [| split | | split]; try done; auto.
      * destruct Hd as [-> | [r [Hr ->]]]; [by auto | right; right; right; by exists r].
      * intros _ [= Hempty]. destruct Hd as [-> | [r [_ ->]]]; discriminate Hempty.
    + repeat split; auto; discriminate.
  - repeat split; auto; discriminate.
Qed.

Lemma hook_results_witness :
  fst (beforeCommandExecute utcMidnight (mkConfig false []) sessionU1 6 cmdAB storeAUsed)
  = None \/
  fst (beforeCommandExecute utcMidnight (mkConfig false []) sessionU1 6 cmdAB storeAUsed)
  = Some "".
Proof.
  exact (proj1 (proj2 (hook_results utcMidnight (mkConfig false []) sessionU1 6 cmdAB
                         storeAUsed)) eq_refl).
Defined.

(** ** The cooldown hint *)

Lemma append_length (a b : string) :
  String.length (a +:+ b) = (String.length a + String.length b)%nat.
Proof. induction a as [| x a IH]; [reflexivity |]. simpl. by rewrite IH. Qed.

Lemma append_suffix_inj (a b x : string) : a +:+ x = b +:+ x -> a = b.
Proof.
  revert b. induction a as [| c a IH]; intros [| d b] H; simpl in H.
  - reflexivity.
  - apply (f_equal String.length) in H. rewrite !append_length in H. simpl in H. lia.
  - apply (f_equal String.length) in H. rewrite !append_length in H. simpl in H. lia.
  - injection H as -> H. by rewrite (IH b H).
Qed.

(** The hint never asks to wait longer than the interval.  Take
    [minInterval = N > 0] an integer and clock readings that are integers
    from 0 on, with [t + N * 1000] no more than [maxSafeInteger].  After
    a call admitted at time [t], a call of the same key at a time from
    [t] on and before [t + N * 1000], while that record stands, is denied
    with the text [操作过于频繁，请 r 秒后重试] for a number [r] between 1
    and [N]; the text names one number only. *)
Theorem cooldown_hint_bounds (nextMidnight : Z -> Z) (st st2 : gmap string UsageRecord)
    (s : Session) (name : string) (sc : Scope) (N maxD maxD' t t' : Z) :
  0 < N -> 0 <= t ->
  t + N * 1000 <= maxSafeInteger ->
  truthyStr (getRecordKey s sc) = true ->
  fst (checkRateLimit nextMidnight st s name sc N maxD t) = None ->
  recordAt st2 (recordIdFor s sc name) =
  recordAt (snd (checkRateLimit nextMidnight st s name sc N maxD t))
    (recordIdFor s sc name) ->
  t <= t' < t + N * 1000 ->
  (exists r, 1 <= r <= N /\
     checkRateLimit nextMidnight st2 s name sc N maxD' t' =
     (Some ("操作过于频繁，请 " +:+ pretty r +:+ " 秒后重试"), st2)) /\
  (forall r r' : Z,
     "操作过于频繁，请 " +:+ pretty r +:+ " 秒后重试" =
     "操作过于频繁，请 " +:+ pretty r' +:+ " 秒后重试" -> r = r').
Proof.
  intros HN Ht _ Hkey Hadmit Hsame Ht'.
  pose proof (check_admit_cooldown nextMidnight st s name sc N maxD t Hkey HN Hadmit)
    as Hstored.
  rewrite <- Hsame in Hstored.
  destruct (check_cooldown_active nextMidnight st2 s name sc N maxD' t' (t + N * 1000)
              Hkey HN ltac:(lia) Hstored) as [Hbefore _].
  split.
  - exists (ceilSeconds (t + N * 1000 - t')). split.
    + pose proof (ceilSeconds_bounds (t + N * 1000 - t')). lia.
    + apply Hbefore. lia.
  - intros r r' Heq. simpl in Heq.
    injection Heq as Heq.
    change (pretty r +:+ " 秒后重试" = pretty r' +:+ " 秒后重试") in Heq.
    apply append_suffix_inj in Heq.
    by apply (inj pretty) in Heq.
Qed.

Lemma cooldown_hint_bounds_witness :
  exists r, 1 <= r <= 60 /\
    checkRateLimit utcMidnight
      (snd (checkRateLimit utcMidnight ∅ sessionU1 "remind" ScopeUser 60 3 0))
      sessionU1 "remind" ScopeUser 60 3 59999
    = (Some ("操作过于频繁，请 " +:+ pretty r +:+ " 秒后重试"),
       snd (checkRateLimit utcMidnight ∅ sessionU1 "remind" ScopeUser 60 3 0)).
Proof.
  apply (cooldown_hint_bounds utcMidnight ∅
           (snd (checkRateLimit utcMidnight ∅ sessionU1 "remind" ScopeUser 60 3 0))
           sessionU1 "remind" ScopeUser 60 3 3 0 59999).
  - lia.
  - lia.
  - unfold maxSafeInteger. lia.
  - reflexivity.
  - vm_compute. reflexivity.
  - reflexivity.
  - lia.
Defined.

(** ** The quota fields *)

Lemma outcome_fields_together (nextMidnight : Z -> Z) s sc record minI maxD now r :
  (dailyResetAt record = None <-> dailyUsesLeft record = None) ->
  snd (levelOutcome nextMidnight s sc record minI maxD now) = Some r ->
  (dailyResetAt r = None <-> dailyUsesLeft r = None).
Proof.
  intros Hinv. unfold levelOutcome.
  destruct (negb _); [discriminate |].
  destruct (_ && _ && _); [discriminate |]. cbv zeta.
  destruct (_ && usesLeftLe0 _); [discriminate |]. simpl.
  intros [= <-]. unfold commit, resetWindow.
  destruct record as [c u d]. simpl in *.
  destruct (0 <? maxD); simpl.
  - destruct (negb (truthyNum d) || earlierThan d now) eqn:Hres; simpl.
    + destruct (0 <? minI); simpl; split; discriminate.
    + destruct d as [dv |]; [| discriminate Hres].
      destruct u as [[n |] |]; destruct (0 <? minI); simpl; split; discriminate.
  - destruct (0 <? minI); simpl; exact Hinv.
Qed.

Lemma check_fields_together (nextMidnight : Z -> Z) st s name sc minI maxD now :
  quotaFieldsTogether st ->
  quotaFieldsTogether (snd (checkRateLimit nextMidnight st s name sc minI maxD now)).
Proof.
  intros Hinv. rewrite check_form. simpl.
  destruct (snd (levelOutcome _ _ _ _ _ _ _)) as [r |] eqn:Hout; simpl; [| exact Hinv].
  intros k r' Hlk.
  destruct (decide (recordIdFor s sc name = k)) as [<- | Hne].
  - rewrite lookup_insert_eq in Hlk. injection Hlk as <-.
    refine (outcome_fields_together _ _ _ _ _ _ _ _ _ Hout).
    unfold recordAt.
    destruct (st !! recordIdFor s sc name) as [r0 |] eqn:Hr0; simpl.
    + by apply (Hinv _ _ Hr0).
    + done.
  - rewrite lookup_insert_ne in Hlk by done. by apply (Hinv k).
Qed.

Lemma walk_fields_together (nextMidnight : Z -> Z) config s now cmd :
  forall st,
    quotaFieldsTogether st ->
    quotaFieldsTogether (snd (walk nextMidnight config s now cmd st)).
Proof.
  induction cmd as [name cfg | name cfg p IH] using Command_chain_ind;
    intros st Hinv; rewrite walk_eq; cbv zeta.
  - destruct (activeLimit s cfg); [| exact Hinv].
    destruct (truthyStr _); simpl; by apply check_fields_together.
  - destruct (activeLimit s cfg); [| by apply IH].
    destruct (truthyStr _); simpl; [by apply check_fields_together |].
    apply IH. by apply check_fields_together.
Qed.

(** The two quota fields of a record are written together: on every store
    reached from the empty one by hook invocations, a record has a reset
    deadline exactly when it has a count of uses left. *)
Theorem quota_fields_together (nextMidnight : Z -> Z) (st : gmap string UsageRecord)
    (k : string) (r : UsageRecord) :
  Reachable nextMidnight st ->
  st !! k = Some r ->
  (dailyResetAt r = None <-> dailyUsesLeft r = None).
Proof.
  intros Hreach. revert k r.
  change (quotaFieldsTogether st).
  induction Hreach as [| config s now command st _ IH].
  - intros k r Hlk. by rewrite lookup_empty in Hlk.
  - unfold beforeCommandExecute.
    destruct (getEffectiveAction config s); simpl; try exact IH.
    by apply walk_fields_together.
Qed.

Lemma quota_fields_together_witness :
  snd (beforeCommandExecute utcMidnight noRules sessionU1 0 cmdChannelOnly ∅)
    !! "channel:C1:c:d"
  = Some {| cooldownExpiresAt := Some 60000;
            dailyUsesLeft := Some (Num 2);
            dailyResetAt := Some 86400000 |} /\
  (Some 86400000 = None <-> Some (Num 2) = (None : option number)).
Proof.
  assert (Hlk : snd (beforeCommandExecute utcMidnight noRules sessionU1 0
                       cmdChannelOnly ∅) !! "channel:C1:c:d"
                = Some {| cooldownExpiresAt := Some 60000;
                          dailyUsesLeft := Some (Num 2);
                          dailyResetAt := Some 86400000 |})
    by (vm_compute; reflexivity).
  split; [exact Hlk |].
  exact (quota_fields_together utcMidnight _ _ _
           (Reachable_invoke utcMidnight noRules sessionU1 0 cmdChannelOnly ∅
              (Reachable_init utcMidnight))
           Hlk).
Defined.

(** ** The quota under a cooldown *)




(** ** The hint flag *)

Lemma walk_sendHint (nextMidnight : Z -> Z) (hint hint' : bool)
    (entries : list CommandFilterRule) s now cmd :
  forall st,
    snd (walk nextMidnight (mkConfig hint entries) s now cmd st) =
    snd (walk nextMidnight (mkConfig hint' entries) s now cmd st) /\
    (fst (walk nextMidnight (mkConfig hint entries) s now cmd st) = None <->
     fst (walk nextMidnight (mkConfig hint' entries) s now cmd st) = None).
Proof.
  induction cmd as [name cfg | name cfg p IH] using Command_chain_ind;
    intros st; rewrite !walk_eq; cbv zeta;
    destruct (activeLimit s cfg); simpl; try done;
    destruct (truthyStr _); simpl; try done.
Qed.

(** [sendHint] changes the text of a denial and nothing else: with the
    flag on or off the hook admits and denies the same invocations and
    leaves the same store. *)
Theorem sendHint_only_text (nextMidnight : Z -> Z) (hint hint' : bool)
    (entries : list CommandFilterRule) (s : Session) (now : Z) (command : Command)
    (st : gmap string UsageRecord) :
  snd (beforeCommandExecute nextMidnight (mkConfig hint entries) s now command st) =
  snd (beforeCommandExecute nextMidnight (mkConfig hint' entries) s now command st) /\
  (fst (beforeCommandExecute nextMidnight (mkConfig hint entries) s now command st) = None
   <->
   fst (beforeCommandExecute nextMidnight (mkConfig hint' entries) s now command st) = None).
Proof.
  unfold beforeCommandExecute.
  rewrite (getEffectiveAction_sendHint hint hint' entries s).
  destruct (getEffectiveAction (mkConfig hint' entries) s); simpl; try done.
  apply walk_sendHint.
Qed.
